(** * Fib: the submit/compute/result pipeline

    A verification development for the Fibonacci calculator service:
    the Express gateway ([server/index.js], route [POST /values]) and the
    Redis worker ([worker/index.js], function [fib] and the subscription
    handler).  The JavaScript is embedded shallowly: pure functions are
    Rocq functions, the asynchronous handlers are computations in a small
    state-and-exception monad over the three stores they share. *)

From Stdlib Require Import ZArith Lia Ascii String List Bool.
From Stdlib Require Import DecimalString DecimalPos DecimalZ.
From Stdlib Require DecimalFacts DecimalN.
From Stdlib Require Import Sorted Permutation.
From stdpp Require Import base strings gmap list.

Local Open Scope Z_scope.

(** ** The JavaScript runtime, as far as the two programs use it *)

Module Js.

(** *** Strings

    A JavaScript string is modelled by a [string] whose characters are the
    code units 0..255. *)

(** [StrWhiteSpaceChar] restricted to those code units: TAB, LF, VT, FF, CR,
    SP and NBSP. *)
Definition isStrWhiteSpaceChar (c : ascii) : bool :=
  let n := Z.of_N (N_of_ascii c) in
  ((9 <=? n) && (n <=? 13)) || (n =? 32) || (n =? 160).

(** [TrimString(s, start)]. *)
Fixpoint trimStart (s : string) : string :=
  match s with
  | String c r => if isStrWhiteSpaceChar c then trimStart r else s
  | EmptyString => EmptyString
  end.

Definition digitValue (c : ascii) : option Z :=
  let n := Z.of_N (N_of_ascii c) in
  if (48 <=? n) && (n <=? 57) then Some (n - 48) else None.

(** The longest prefix of decimal digits of [s], and what follows it. *)
Fixpoint spanDigits (s : string) : list Z * string :=
  match s with
  | String c r =>
      match digitValue c with
      | Some d => let '(ds, t) := spanDigits r in (d :: ds, t)
      | None => ([], s)
      end
  | EmptyString => ([], EmptyString)
  end.

Definition digitsToZ (ds : list Z) : Z :=
  fold_left (fun acc d => 10 * acc + d) ds 0.

(** An optional sign: [true] for a leading minus. *)
Definition spanSign (s : string) : bool * string :=
  match s with
  | String "-" r => (true, r)
  | String "+" r => (false, r)
  | _ => (false, s)
  end.

Definition signed (neg : bool) (z : Z) : Z := if neg then - z else z.

(** *** Numbers

    [parseInt] yields [NaN] or an integral Number.  The programs compare the
    result with 0 and 40, which rounding to binary64 preserves (it is
    monotone and both bounds are representable), and otherwise use it only
    when it lies in 0..40; so the result is modelled by the integer the
    digits denote, with [None] for [NaN].  A negative zero is the integer 0:
    it compares, prints and indexes as 0. *)

(** [parseInt(string, 10)] on a string. *)
Definition parseInt10 (s : string) : option Z :=
  let '(neg, r) := spanSign (trimStart s) in
  match spanDigits r with
  | ([], _) => None
  | (ds, _) => Some (signed neg (digitsToZ ds))
  end.

(** [isNaN] of a [parseInt] result. *)
Definition isNaN (x : option Z) : bool :=
  match x with None => true | Some _ => false end.

(** [Number.prototype.toString()] of an integral Number of magnitude below
    2^53: the decimal numeral, digit for digit.  (Every integer of that
    magnitude is a Number, and [Number::toString] prints all its digits;
    the handlers print indexes of 0..40 and values of [fib] on them.) *)
Definition toString (z : Z) : string :=
  NilZero.string_of_int (Z.to_int z).

(** A binary64 value as [parseFloat] returns it: not-a-number, an infinity,
    or [(-1)^neg * sig * 2^exp]. *)
Inductive Double :=
| DNaN
| DInfinity (neg : bool)
| DFinite (neg : bool) (sig : Z) (exp : Z).

(** The integer nearest to [n / d], ties to even ([0 <= n], [0 < d]). *)
Definition roundEven (n d : Z) : Z :=
  let q := n / d in
  let r := n mod d in
  if 2 * r <? d then q
  else if d <? 2 * r then q + 1
  else if Z.even q then q else q + 1.

(** Is [num / den < 2 ^ p]? *)
Definition belowPow2 (num den p : Z) : bool :=
  if 0 <=? p then num <? den * 2 ^ p else num * 2 ^ (- p) <? den.

(** The Number value for the real number [m * 10^e10] ([0 <= m]):
    round to nearest, ties to even, 53 bits of significand, gradual
    underflow below 2^-1022, overflow to infinity from 2^1024. *)
Definition binary64 (neg : bool) (m e10 : Z) : Double :=
  if m =? 0 then DFinite neg 0 0
  else
    let num := if 0 <=? e10 then m * 10 ^ e10 else m in
    let den := if 0 <=? e10 then 1 else 10 ^ (- e10) in
    let p0 := Z.log2 num - Z.log2 den in
    let p := if belowPow2 num den p0 then p0 - 1 else p0 in
    let e := Z.max (p - 52) (-1074) in
    let sig :=
      if 0 <=? e then roundEven num (den * 2 ^ e)
      else roundEven (num * 2 ^ (- e)) den in
    if (0 <=? e) && (2 ^ 1024 <=? sig * 2 ^ e) then DInfinity neg
    else DFinite neg sig e.

(** The exponent part of a [StrDecimalLiteral]: [e] or [E], an optional
    sign, at least one digit; 0 when [s] does not start with one. *)
Definition spanExponent (s : string) : Z :=
  match s with
  | String c r =>
      if (Ascii.eqb c "e" || Ascii.eqb c "E")%bool then
        let '(neg, r') := spanSign r in
        match spanDigits r' with
        | ([], _) => 0
        | (ds, _) => signed neg (digitsToZ ds)
        end
      else 0
  | EmptyString => 0
  end.

(** A decimal point and the digits after it, if [s] starts with a point. *)
Definition spanFraction (s : string) : list Z * string :=
  match s with
  | String c r => if Ascii.eqb c "." then spanDigits r else ([], s)
  | EmptyString => ([], s)
  end.

(** The longest prefix of the trimmed string that is a [StrDecimalLiteral],
    as sign, digits and decimal exponent: [Some (neg, None)] for
    [Infinity], [Some (neg, Some (m, e))] for the mathematical value
    [m * 10^e], [None] when there is no such prefix. *)
Definition decimalPrefix (s : string) : option (bool * option (Z * Z)) :=
  let '(neg, r) := spanSign (trimStart s) in
  if String.prefix "Infinity" r then Some (neg, None)
  else
    let '(ip, r1) := spanDigits r in
    let '(fp, r2) := spanFraction r1 in
    match ip, fp with
    | [], [] => None
    | _, _ =>
        Some (neg, Some (digitsToZ (ip ++ fp),
                         spanExponent r2 - Z.of_nat (List.length fp)))
    end.

(** [parseFloat(string)] on a string. *)
Definition parseFloatS (s : string) : Double :=
  match decimalPrefix s with
  | None => DNaN
  | Some (neg, None) => DInfinity neg
  | Some (neg, Some (m, e)) => binary64 neg m e
  end.

(** [x === y] for an integral Number [k] and a Double. *)
Definition strictEq (k : Z) (x : Double) : bool :=
  match x with
  | DNaN => false
  | DInfinity _ => false
  | DFinite neg sig exp =>
      if 0 <=? exp then signed neg sig * 2 ^ exp =? k
      else signed neg sig =? k * 2 ^ (- exp)
  end.

(** *** Numbers that arrive in a request

    A Number decoded from the JSON body is given by the decimal expansion
    that [Number::toString] prints for it: for a finite non-zero value the
    digits [s] (no trailing zero, [k] of them) and the position [n] of the
    decimal point, the value being [s * 10^(n - k)]. *)
Inductive Number :=
| NumNaN
| NumInfinity (neg : bool)
| NumZero (neg : bool)
| NumFinite (neg : bool) (s : positive) (n : Z).

Fixpoint zeros (n : nat) : string :=
  match n with
  | O => EmptyString
  | S n' => String "0" (zeros n')
  end.

Definition minus (neg : bool) : string := if neg then "-"%string else ""%string.

(** [Number::toString(x, 10)]. *)
Definition Number_toString (x : Number) : string :=
  match x with
  | NumNaN => "NaN"
  | NumZero _ => "0"
  | NumInfinity neg => minus neg +:+ "Infinity"
  | NumFinite neg s n =>
      let ds := NilZero.string_of_uint (Pos.to_uint s) in
      let k := String.length ds in
      minus neg +:+
      (if (Z.of_nat k <=? n) && (n <=? 21) then
         ds +:+ zeros (Z.to_nat n - k)
       else if (0 <? n) && (n <=? 21) then
         substring 0 (Z.to_nat n) ds +:+ "." +:+
         substring (Z.to_nat n) (k - Z.to_nat n) ds
       else if (-6 <? n) && (n <=? 0) then
         "0." +:+ zeros (Z.to_nat (- n)) +:+ ds
       else
         let e := n - 1 in
         let es := (if e <? 0 then "-" else "+") +:+ toString (Z.abs e) in
         if (k =? 1)%nat then ds +:+ "e" +:+ es
         else substring 0 1 ds +:+ "." +:+ substring 1 (k - 1) ds
              +:+ "e" +:+ es)
  end.

(** The Number holding the integer [z], for [z] of magnitude below 2^53:
    every such integer is a Number, and its expansion is its numeral (the
    digits may keep their trailing zeros: what is printed is the same). *)
Definition integer (z : Z) : Number :=
  if z =? 0 then NumZero false
  else NumFinite (z <? 0) (Z.to_pos (Z.abs z))
                 (Z.of_nat (String.length (toString (Z.abs z)))).

(** *** Values

    What [req.body.index] can hold after [bodyParser.json()]: [undefined]
    when the property is absent, or a decoded JSON value. *)
#[warnings="-register-all"] Inductive JsValue :=
| JsUndefined
| JsNull
| JsBoolean (b : bool)
| JsNumber (x : Number)
| JsString (s : string)
| JsArray (elements : list JsValue)
| JsObject (properties : list (string * JsValue)).

Definition hasOwnProperty (name : string) (properties : list (string * JsValue)) : bool :=
  existsb (fun p => String.eqb (fst p) name) properties.

(** [ToString(v)]; [None] stands for the [TypeError] it throws.  A decoded
    object has no callable property of its own, so an own [toString]
    shadows [Object.prototype.toString] with a non-function and the
    conversion to a primitive fails; without one it prints as
    [[object Object]].  An array prints as [join(',')], holes for [null]
    and [undefined]. *)
Fixpoint ToString (v : JsValue) : option string :=
  match v with
  | JsUndefined => Some "undefined"%string
  | JsNull => Some "null"%string
  | JsBoolean b => Some (if b then "true" else "false")%string
  | JsNumber x => Some (Number_toString x)
  | JsString s => Some s
  | JsArray elements =>
      let element (x : JsValue) : option string :=
        match x with
        | JsUndefined | JsNull => Some ""%string
        | _ => ToString x
        end in
      (fix join (l : list JsValue) : option string :=
         match l with
         | [] => Some ""%string
         | [x] => element x
         | x :: r =>
             match element x, join r with
             | Some a, Some b => Some (a +:+ "," +:+ b)
             | _, _ => None
             end
         end) elements
  | JsObject properties =>
      if hasOwnProperty "toString" properties then None
      else Some "[object Object]"%string
  end.

End Js.

Import Js.

(** ** The stores and the handlers' effects *)

Module Store.

(** A console line: [console.log] or [console.error], and its text. *)
Inductive Stream := Log | Error.

Inductive JsError := TypeError | RedisError | PgError.

Definition errorName (e : JsError) : string :=
  match e with
  | TypeError => "TypeError"
  | RedisError => "RedisError"
  | PgError => "PgError"
  end.

(** A call on one of the stores, as issued. *)
Inductive Call :=
| HSet (field value : string)
| Publish (message : string)
| Insert (number : Z).

(** What the gateway and the worker share, and their consoles:
    - [values]: the Redis hash ['values'] (the Result Cache);
    - [channel]: the messages published on channel ['insert'], oldest first;
    - [ledger]: the [number] column of table [values], in insertion order
      ([id] and [created_at] are filled in by PostgreSQL and read by no
      handler);
    - [calls]: the history of the store calls issued so far, oldest first
      (a ghost field: no program reads it). *)
Record World := {
  values : gmap string string;
  channel : list string;
  ledger : list Z;
  server_console : list (Stream * string);
  worker_console : list (Stream * string);
  calls : list Call
}.

Definition empty_world : World :=
  {| values := ∅; channel := []; ledger := [];
     server_console := []; worker_console := []; calls := [] |}.

Definition set_values (f : gmap string string -> gmap string string) (w : World) : World :=
  {| values := f (values w); channel := channel w; ledger := ledger w;
     server_console := server_console w;
     worker_console := worker_console w; calls := calls w |}.

Definition set_channel (f : list string -> list string) (w : World) : World :=
  {| values := values w; channel := f (channel w); ledger := ledger w;
     server_console := server_console w;
     worker_console := worker_console w; calls := calls w |}.

Definition set_ledger (f : list Z -> list Z) (w : World) : World :=
  {| values := values w; channel := channel w; ledger := f (ledger w);
     server_console := server_console w;
     worker_console := worker_console w; calls := calls w |}.

Definition record_call (c : Call) (w : World) : World :=
  {| values := values w; channel := channel w; ledger := ledger w;
     server_console := server_console w;
     worker_console := worker_console w; calls := calls w ++ [c] |}.

(** The outcome of running a statement: it completes, or it throws. *)
Inductive Completion (A : Type) :=
| Normal (a : A)
| Throw (e : JsError).
Arguments Normal {A} a.
Arguments Throw {A} e.

(** An [async] computation over the stores. *)
Definition Async (A : Type) : Type := World -> Completion A * World.

Definition ret {A} (a : A) : Async A := fun w => (Normal a, w).

Definition throw {A} (e : JsError) : Async A := fun w => (Throw e, w).

Definition bind {A B} (m : Async A) (k : A -> Async B) : Async B :=
  fun w =>
    match m w with
    | (Normal a, w') => k a w'
    | (Throw e, w') => (Throw e, w')
    end.

(** [try { body } catch (error) { handler }]. *)
Definition try_catch {A} (body : Async A) (handler : JsError -> Async A) : Async A :=
  fun w =>
    match body w with
    | (Normal a, w') => (Normal a, w')
    | (Throw e, w') => handler e w'
    end.

(** The fate of an awaited call on a store: it succeeds, or it throws,
    the store having applied it or not (an error can reach the client after
    the command was carried out). *)
Inductive Fate := Succeeds | Fails (applied : bool).

Definition succeeded (fate : Fate) : bool :=
  match fate with Succeeds => true | Fails _ => false end.

Definition took_effect (fate : Fate) : bool :=
  match fate with Succeeds => true | Fails applied => applied end.

(** An awaited store call: recorded, applied or not, and completed or
    thrown according to its fate. *)
Definition store_call (fate : Fate) (c : Call) (e : JsError)
    (apply : World -> World) : Async unit :=
  fun w =>
    let w := record_call c w in
    let w := if took_effect fate then apply w else w in
    if succeeded fate then (Normal tt, w) else (Throw e, w).

(** [await redisClient.hSet('values', field, value)]: sets the field. *)
Definition hSet (fate : Fate) (field value : string) : Async unit :=
  store_call fate (HSet field value) RedisError (set_values <[field := value]>).

(** [await redisPublisher.publish('insert', message)]. *)
Definition publish (fate : Fate) (message : string) : Async unit :=
  store_call fate (Publish message) RedisError
    (set_channel (fun q => q ++ [message])).

(** [INSERT INTO values(number) VALUES($1) ON CONFLICT (number) DO NOTHING]
    on a table whose column [number] is [UNIQUE]. *)
Definition insert_on_conflict_do_nothing (number : Z) (rows : list Z) : list Z :=
  if existsb (Z.eqb number) rows then rows else rows ++ [number].

(** [await pgClient.query('INSERT ...', [number])]. *)
Definition query_insert (fate : Fate) (number : Z) : Async unit :=
  store_call fate (Insert number) PgError
    (set_ledger (insert_on_conflict_do_nothing number)).

Definition server_print (s : Stream) (text : string) : Async unit :=
  fun w =>
    (Normal tt,
     {| values := values w; channel := channel w; ledger := ledger w;
        server_console := server_console w ++ [(s, text)];
        worker_console := worker_console w; calls := calls w |}).

Definition worker_print (s : Stream) (text : string) : Async unit :=
  fun w =>
    (Normal tt,
     {| values := values w; channel := channel w; ledger := ledger w;
        server_console := server_console w;
        worker_console := worker_console w ++ [(s, text)];
        calls := calls w |}).

End Store.

Import Store.

Declare Scope async_scope.
Delimit Scope async_scope with async.
Notation "x <- c1 ;; c2" := (bind c1 (fun x => c2))
  (at level 100, c1 at next level, right associativity) : async_scope.
Notation "c1 ;; c2" := (bind c1 (fun _ => c2))
  (at level 100, right associativity) : async_scope.

(** ** The worker ([worker/index.js]) *)

Module Worker.

(** The loop of [fib]: [for (let i = 2; i <= index; i++)] over [prev] and
    [current]; [None] when the fuel runs out before the test fails. *)
Fixpoint fib_for (fuel : nat) (i index prev current : Z) : option Z :=
  match fuel with
  | O => None
  | S fuel' =>
      if i <=? index then
        let next := prev + current in
        fib_for fuel' (i + 1) index current next
      else Some current
  end.

Definition fib_fuel (fuel : nat) (index : Z) : option Z :=
  if index <? 2 then Some 1
  else fib_for fuel 2 index 1 1.

(** [fib(index)], run with fuel that suffices (lemma [fib_fuel_enough]). *)
Definition fib (index : Z) : Z :=
  match fib_fuel (Z.to_nat index) index with
  | Some current => current
  | None => 1
  end.

(** The handler given to [sub.subscribe('insert', ...)], for a delivery
    during which the [hSet] call, if made, has the given fate. *)
Definition on_message (write : Fate) (message : string) : Async unit :=
  try_catch
    (match parseInt10 message with
     | None => worker_print Error ("Invalid message received: " +:+ message)
     | Some index =>
         if (index <? 0) || (index >? 40) then
           worker_print Error ("Invalid message received: " +:+ message)
         else
           (worker_print Log ("Calculating Fibonacci for index: " +:+ toString index) ;;
            let result := fib index in
            hSet write (toString index) (toString result) ;;
            worker_print Log ("Successfully calculated fib(" +:+ toString index
                              +:+ ") = " +:+ toString result))%async
     end)
    (fun error => worker_print Error ("Error processing message: " +:+ errorName error)).

(** A message as Redis hands it to the subscriber, with the fate of the
    [hSet] call made while handling it. *)
Record Delivery := { message : string; write : Fate }.

(** The subscription: the handler runs on each delivery in turn; a handler
    that threw would end it. *)
Fixpoint subscription (deliveries : list Delivery) : Async unit :=
  match deliveries with
  | [] => ret tt
  | d :: rest =>
      (on_message (write d) (message d) ;; subscription rest)%async
  end.

End Worker.

(** ** The gateway ([server/index.js]) *)

Module Server.

Inductive Body :=
| ErrorBody (error : string)
| WorkingBody (working : bool) (index : Z) (message : string).

(** [res.status(status).json(body)]. *)
Record Response := { status : Z; body : Body }.

(** [index === undefined || index === null || index === '']. *)
Definition is_missing (index : JsValue) : bool :=
  match index with
  | JsUndefined => true
  | JsNull => true
  | JsString s => String.eqb s ""
  | _ => false
  end.

(** [parseInt(index, 10)] and [parseFloat(index)]: the argument is converted
    with [ToString] first. *)
Definition parseInt (index : JsValue) : option (option Z) :=
  option_map parseInt10 (ToString index).

Definition parseFloat (index : JsValue) : option Double :=
  option_map parseFloatS (ToString index).

(** Lines 156-180 of the [POST /values] handler: the response of the first
    check that fails, or the parsed index. *)
Definition validate (index : JsValue) : Completion (Response + Z) :=
  if is_missing index then
    Normal (inl {| status := 400; body := ErrorBody "Index is required" |})
  else
    match parseInt index with
    | None => Throw TypeError
    | Some None =>
        Normal (inl {| status := 400; body := ErrorBody "Index must be a valid number" |})
    | Some (Some parsedIndex) =>
        if parsedIndex <? 0 then
          Normal (inl {| status := 400; body := ErrorBody "Index must be non-negative" |})
        else if parsedIndex >? 40 then
          Normal (inl {| status := 422; body := ErrorBody "Index too high (maximum: 40)" |})
        else
          match parseFloat index with
          | None => Throw TypeError
          | Some f =>
              if negb (strictEq parsedIndex f) then
                Normal (inl {| status := 400; body := ErrorBody "Index must be an integer" |})
              else Normal (inr parsedIndex)
          end
    end.

(** The fate of each of the three store calls of one request. *)
Record Env := { hSet_fate : Fate; publish_fate : Fate; query_fate : Fate }.

Definition all_ok : Env :=
  {| hSet_fate := Succeeds; publish_fate := Succeeds; query_fate := Succeeds |}.

(** The [POST /values] handler, on the value of [req.body.index]. *)
Definition post_values (env : Env) (index : JsValue) : Async Response :=
  match validate index with
  | Throw e => throw e
  | Normal (inl rejection) => ret rejection
  | Normal (inr parsedIndex) =>
      try_catch
        (hSet (hSet_fate env) (toString parsedIndex) "Calculating..." ;;
         publish (publish_fate env) (toString parsedIndex) ;;
         query_insert (query_fate env) parsedIndex ;;
         ret {| status := 201;
                body := WorkingBody true parsedIndex "Calculation started" |})%async
        (fun error =>
           (server_print Error ("Error saving value: " +:+ errorName error) ;;
            ret {| status := 500;
                   body := ErrorBody "Internal server error while processing request" |})%async)
  end.

(** [GET /values/current]: the whole hash. *)
Definition get_values_current (w : World) : gmap string string := values w.

End Server.

Import Worker Server.

(** ** The pipeline: requests and deliveries in any order *)

Inductive Event :=
| Submit (env : Env) (index : JsValue)
| Deliver (d : Delivery).

(** One event: a whole request, its store calls one after the other with
    nothing in between, or one run of the worker's handler.  ([interleave],
    further down, takes the store calls of a request one at a time.) *)
Definition step (w : World) (e : Event) : World :=
  match e with
  | Submit env index => snd (post_values env index w)
  | Deliver d => snd (on_message (write d) (message d) w)
  end.

Definition run (events : list Event) (w : World) : World :=
  fold_left step events w.

(** ** The statements of the specification, in its own words *)

(** The sequence of section 4.2: two accumulators seeded at 1, 1, advanced
    by [next = a + b; a = b; b = next] once for each step from 2 to [index]
    inclusive; 1 for an index below 2. *)
Definition advance (ab : Z * Z) (step : nat) : Z * Z :=
  let '(a, b) := ab in
  let next := a + b in
  (b, next).

Definition fib_sequence (index : Z) : Z :=
  if index <? 2 then 1
  else snd (fold_left advance (seq 2 (Z.to_nat index - 1)) (1, 1)).

(** The textbook sequence: F(0) = 0, F(1) = 1, F(n+2) = F(n+1) + F(n). *)
Fixpoint textbook (n : nat) : Z :=
  match n with
  | O => 0
  | S m => match m with
           | O => 1
           | S p => textbook m + textbook p
           end
  end.

(** The classes of rejection of section 4.1, and the response the gateway
    sends for each. *)
Inductive Rejection :=
| MissingInput
| MalformedInput
| OutOfRangeBelow
| OutOfRangeAbove
| NonInteger.

Definition rejection_response (r : Rejection) : Response :=
  match r with
  | MissingInput => {| status := 400; body := ErrorBody "Index is required" |}
  | MalformedInput => {| status := 400; body := ErrorBody "Index must be a valid number" |}
  | OutOfRangeBelow => {| status := 400; body := ErrorBody "Index must be non-negative" |}
  | OutOfRangeAbove => {| status := 422; body := ErrorBody "Index too high (maximum: 40)" |}
  | NonInteger => {| status := 400; body := ErrorBody "Index must be an integer" |}
  end.

(** [x < k] and [x > k] on a [parseInt] result: false on [NaN]. *)
Definition lessThan (x : option Z) (k : Z) : bool :=
  match x with Some z => z <? k | None => false end.

Definition greaterThan (x : option Z) (k : Z) : bool :=
  match x with Some z => z >? k | None => false end.

(** Check (1) of section 4.1: the field is absent, null, or the empty
    string. *)
Definition absent_null_or_empty (index : JsValue) : bool :=
  match index with
  | JsUndefined => true
  | JsNull => true
  | JsString EmptyString => true
  | _ => false
  end.

(** Whether the numeric value of [s] as written - the exact value
    [(-1)^neg * m * 10^e] of its decimal prefix, before any rounding - is
    the integer [k]. *)
Definition exact_value_equals (k : Z) (s : string) : bool :=
  match decimalPrefix s with
  | Some (neg, Some (m, e)) =>
      if 0 <=? e then signed neg m * 10 ^ e =? k
      else signed neg m =? k * 10 ^ (- e)
  | _ => false
  end.

(** Check (5) of section 4.1 as it is stated: the parsed value is not
    exactly equal to the unrounded numeric value of the input. *)
Definition differs_from_unrounded (x : option Z) (s : string) : bool :=
  match x with Some z => negb (exact_value_equals z s) | None => true end.

(** [x !== y] on a [parseInt] result and a Double: true on [NaN]. *)
Definition strictNotEq (x : option Z) (y : Double) : bool :=
  match x with Some z => negb (strictEq z y) | None => true end.

(** The first check that fails in a list of checks, each given as the
    condition under which it fails, on the field and its string form. *)
Definition first_failure_in (cs : list ((JsValue -> string -> bool) * Rejection))
    (index : JsValue) (s : string) : option Rejection :=
  option_map snd (List.find (fun c => fst c index s) cs).

(** The five checks of section 4.1 in the order listed, as they are
    stated: the fifth compares with the unrounded value. *)
Definition checks_as_stated : list ((JsValue -> string -> bool) * Rejection) :=
  [ (fun index _ => absent_null_or_empty index, MissingInput);
    (fun _ s => isNaN (parseInt10 s), MalformedInput);
    (fun _ s => lessThan (parseInt10 s) 0, OutOfRangeBelow);
    (fun _ s => greaterThan (parseInt10 s) 40, OutOfRangeAbove);
    (fun _ s => differs_from_unrounded (parseInt10 s) s, NonInteger) ].

(** The same five checks, the fifth comparing with the value [parseFloat]
    gives: the decimal prefix rounded to the nearest binary64. *)
Definition checks : list ((JsValue -> string -> bool) * Rejection) :=
  [ (fun index _ => absent_null_or_empty index, MissingInput);
    (fun _ s => isNaN (parseInt10 s), MalformedInput);
    (fun _ s => lessThan (parseInt10 s) 0, OutOfRangeBelow);
    (fun _ s => greaterThan (parseInt10 s) 40, OutOfRangeAbove);
    (fun _ s => strictNotEq (parseInt10 s) (parseFloatS s), NonInteger) ].

(** First failure wins. *)
Definition first_failure (index : JsValue) (s : string) : option Rejection :=
  first_failure_in checks index s.

(** A well-formed base-10 integer: an optional sign, then digits and
    nothing else. *)
Definition well_formed_integer (s : string) : bool :=
  match spanDigits (snd (spanSign s)) with
  | (_ :: _, EmptyString) => true
  | _ => false
  end.

(** Whether the exact value [m * 10^e] of the decimal prefix of [s] is an
    integer, before any rounding. *)
Definition exact_value_is_integer (s : string) : bool :=
  match decimalPrefix s with
  | Some (_, Some (m, e)) => if 0 <=? e then true else m mod 10 ^ (- e) =? 0
  | _ => false
  end.

(** Whether the exact value of the decimal prefix of [s] has at most [n]
    digits after the decimal point: [10^n] times [m * 10^e] is an integer.
    Trailing zeros as written do not count: ["3.50000000000000000"] has one
    digit after the point. *)
Definition at_most_fraction_digits (n : Z) (s : string) : bool :=
  match decimalPrefix s with
  | Some (_, Some (m, e)) =>
      if 0 <=? e + n then true else m mod 10 ^ (- (e + n)) =? 0
  | _ => false
  end.

(** None of the three store calls of a request fails. *)
Definition stores_ok (env : Env) : bool :=
  succeeded (hSet_fate env) && succeeded (publish_fate env) &&
  succeeded (query_fate env).

(** The placeholder the gateway writes. *)
Definition placeholder : string := "Calculating...".

(** What a field of the Result Cache may hold: under the numeral of an
    index [k] in 0..40, the placeholder or the numeral of [fib k]. *)
Definition result_entry (field value : string) : Prop :=
  exists k, 0 <= k <= 40 /\ field = toString k /\
            (value = placeholder \/ value = toString (fib k)).

(** The invariant: it holds of every field of the hash and of every [hSet]
    ever issued. *)
Definition cache_invariant (w : World) : Prop :=
  (forall field value, values w !! field = Some value -> result_entry field value) /\
  (forall field value, In (HSet field value) (calls w) -> result_entry field value).

(** A message the worker computes: it parses to an index in 0..40. *)
Definition computes (message : string) (k : Z) : Prop :=
  parseInt10 message = Some k /\ 0 <= k <= 40.

(** A message the worker discards. *)
Definition discards (message : string) : Prop :=
  match parseInt10 message with
  | None => True
  | Some k => k < 0 \/ 40 < k
  end.

(** ** Further parts of the programs *)

(** The [reconnectStrategy] given to [redis.createClient], the same in the
    gateway and in the worker. *)
Module Redis.

(** What the strategy returns: an [Error], which ends the reconnection, or
    the milliseconds to wait before the next attempt. *)
Inductive Reconnect :=
| GiveUp (message : string)
| RetryAfter (milliseconds : Z).

Definition reconnectStrategy (retries : Z) : Reconnect :=
  if retries >? 10 then GiveUp "Redis retry limit exceeded"
  else RetryAfter (Z.min (retries * 100) 3000).

(** The waits of the attempts numbered [0 .. attempts - 1], as long as the
    strategy goes on. *)
Fixpoint waits (attempts : nat) : list Z :=
  match attempts with
  | O => []
  | S n =>
      match reconnectStrategy (Z.of_nat n) with
      | RetryAfter ms => waits n ++ [ms]
      | GiveUp _ => waits n
      end
  end.

End Redis.

(** The [origin] function of [corsOptions]. *)
Module Cors.

(** [s.split(sep)] for a separator of one character. *)
Fixpoint split (sep : ascii) (s : string) : list string :=
  match s with
  | EmptyString => [EmptyString]
  | String c r =>
      if Ascii.eqb c sep then EmptyString :: split sep r
      else match split sep r with
           | piece :: pieces => String c piece :: pieces
           | [] => [String c EmptyString]
           end
  end.

(** [pieces.join(sep)]. *)
Fixpoint join (sep : ascii) (pieces : list string) : string :=
  match pieces with
  | [] => EmptyString
  | [piece] => piece
  | piece :: rest => piece +:+ String sep (join sep rest)
  end.

Definition default_origins : list string :=
  ["http://localhost:3000"%string; "http://localhost:3050"%string].

(** [process.env.ALLOWED_ORIGINS ? process.env.ALLOWED_ORIGINS.split(',')
    : [...]]: an unset variable is [None], and the empty string is falsy. *)
Definition allowedOrigins (ALLOWED_ORIGINS : option string) : list string :=
  match ALLOWED_ORIGINS with
  | None => default_origins
  | Some s => if String.eqb s "" then default_origins else split "," s
  end.

(** What is passed to [callback]: [(null, true)] or an [Error]. *)
Inductive Decision :=
| Allowed
| NotAllowed (message : string).

(** The function, on the [Origin] header of the request ([None] when the
    request has none). *)
Definition origin (ALLOWED_ORIGINS : option string) (header : option string) : Decision :=
  match header with
  | None => Allowed
  | Some o =>
      if String.eqb o "" then Allowed
      else if existsb (String.eqb o) (allowedOrigins ALLOWED_ORIGINS) then Allowed
      else NotAllowed "Not allowed by CORS"
  end.

End Cors.

(** The two read routes of the gateway. *)
Module Reads.

(** [ORDER BY number ASC]: the rows in ascending order of [number]. *)
Fixpoint place (x : Z) (sorted : list Z) : list Z :=
  match sorted with
  | [] => [x]
  | y :: rest => if x <=? y then x :: sorted else y :: place x rest
  end.

Fixpoint order_by_number (rows : list Z) : list Z :=
  match rows with
  | [] => []
  | x :: rest => place x (order_by_number rest)
  end.

Inductive ReadBody :=
| Rows (rows : list Z)
| Values (fields : gmap string string)
| ReadError (error : string).

Record ReadResponse := { read_status : Z; read_body : ReadBody }.

(** [await pgClient.query('SELECT * FROM values ORDER BY number ASC')]:
    the rows, or an error when the query fails.  A read changes no store
    and is not written to the history. *)
Definition query_select (ok : bool) : Async (list Z) :=
  fun w => if ok then (Normal (order_by_number (ledger w)), w) else (Throw PgError, w).

(** [await redisClient.hGetAll('values')]. *)
Definition hGetAll (ok : bool) : Async (gmap string string) :=
  fun w => if ok then (Normal (get_values_current w), w) else (Throw RedisError, w).

(** The [GET /values/all] handler. *)
Definition get_values_all (ok : bool) : Async ReadResponse :=
  try_catch
    (rows <- query_select ok ;;
     ret {| read_status := 200; read_body := Rows rows |})%async
    (fun error =>
       (server_print Error ("Database error fetching values: " +:+ errorName error) ;;
        ret {| read_status := 500;
               read_body := ReadError "Failed to fetch values from database" |})%async).

(** The [GET /values/current] handler ([values || {}] is [values]: the
    client returns an object). *)
Definition get_values (ok : bool) : Async ReadResponse :=
  try_catch
    (fields <- hGetAll ok ;;
     ret {| read_status := 200; read_body := Values fields |})%async
    (fun error =>
       (server_print Error ("Redis error fetching values: " +:+ errorName error) ;;
        ret {| read_status := 500;
               read_body := ReadError "Failed to fetch current values from cache" |})%async).

End Reads.

(** The form of the client ([client/src/Fib.js]). *)
Module Client.

(** [s.trimEnd()] and [s.trim()]. *)
Fixpoint trimEnd (s : string) : string :=
  match s with
  | EmptyString => EmptyString
  | String c r =>
      match trimEnd r with
      | EmptyString => if isStrWhiteSpaceChar c then EmptyString else String c EmptyString
      | kept => String c kept
      end
  end.

Definition trim (s : string) : string := trimEnd (trimStart s).

(** What [handleSubmit] does with the text of the input: it shows an error
    and sends nothing, or it posts [{ index: parsedIndex }]. *)
Inductive Submission :=
| ShowError (message : string)
| Post (parsedIndex : Z).

Definition handleSubmit (index : string) : Submission :=
  if String.eqb index "" || String.eqb (trim index) "" then
    ShowError "Please enter a number"
  else
    match parseInt10 index with
    | None => ShowError "Please enter a valid number"
    | Some parsedIndex =>
        if parsedIndex <? 0 then ShowError "Please enter a non-negative number"
        else if parsedIndex >? 40 then ShowError "Index must be 40 or less"
        else Post parsedIndex
    end.

(** The [index] the gateway decodes from the body [{ index: parsedIndex }]. *)
Definition posted (parsedIndex : Z) : JsValue := JsNumber (integer parsedIndex).

(** The error the form shows after the response to its request, if any:
    axios rejects a status outside 2xx, and the catch shows
    [err.response?.data?.error || 'Failed to calculate Fibonacci number']. *)
Definition shown_error (r : Response) : option string :=
  if (200 <=? status r) && (status r <? 300) then None
  else match body r with
       | ErrorBody e =>
           if String.eqb e "" then Some "Failed to calculate Fibonacci number"%string
           else Some e
       | WorkingBody _ _ _ => Some "Failed to calculate Fibonacci number"%string
       end.

End Client.

(** ** Further statements *)

(** The digits of a decimal numeral, most significant first. *)
Fixpoint uint_digits (d : Decimal.uint) : list Z :=
  match d with
  | Decimal.Nil => []
  | Decimal.D0 l => 0 :: uint_digits l
  | Decimal.D1 l => 1 :: uint_digits l
  | Decimal.D2 l => 2 :: uint_digits l
  | Decimal.D3 l => 3 :: uint_digits l
  | Decimal.D4 l => 4 :: uint_digits l
  | Decimal.D5 l => 5 :: uint_digits l
  | Decimal.D6 l => 6 :: uint_digits l
  | Decimal.D7 l => 7 :: uint_digits l
  | Decimal.D8 l => 8 :: uint_digits l
  | Decimal.D9 l => 9 :: uint_digits l
  end.

(** Whether the character [c] occurs in [s]. *)
Definition has_char (c : ascii) (s : string) : bool :=
  existsb (Ascii.eqb c) (list_ascii_of_string s).

(** Whether [s] holds nothing but white space (the empty string does). *)
Definition blank (s : string) : bool :=
  forallb isStrWhiteSpaceChar (list_ascii_of_string s).

(** The indexes 0, 1, ..., 40. *)
Definition index_range : list Z := map Z.of_nat (seq 0 41).

(** The ledger respects its [UNIQUE] constraint and holds indexes of
    0..40 only. *)
Definition ledger_invariant (w : World) : Prop :=
  List.NoDup (ledger w) /\ Forall (fun k => 0 <= k <= 40) (ledger w).

(** Every message published so far is one the worker computes. *)
Definition channel_invariant (w : World) : Prop :=
  Forall (fun m => exists k, computes m k) (channel w).

Definition total (l : list Z) : Z := fold_right Z.add 0 l.

(** *** The pipeline, one store call at a time

    Every [await] of the [POST /values] handler yields to the event loop,
    and the worker is another process: between two store calls of one
    request, other requests may issue theirs and the worker may handle
    messages.  An [Action] is one awaited store call of the gateway - the
    [hSet] of line 184, the [publish] of line 187 or the [INSERT] of line
    190, for the index of some request - or one run of the worker's
    handler. *)
Inductive Action :=
| CallHSet (fate : Fate) (index : Z)
| CallPublish (fate : Fate) (index : Z)
| CallInsert (fate : Fate) (index : Z)
| Handle (d : Delivery).

Definition act (w : World) (a : Action) : World :=
  match a with
  | CallHSet fate index => snd (hSet fate (toString index) "Calculating..." w)
  | CallPublish fate index => snd (publish fate (toString index) w)
  | CallInsert fate index => snd (query_insert fate index w)
  | Handle d => snd (on_message (write d) (message d) w)
  end.

(** The actions of all requests and of the worker, in the order in which
    the stores see them. *)
Definition interleave (actions : list Action) (w : World) : World :=
  fold_left act actions w.

(** The store calls of a request for [index] that is answered 201, in the
    order the handler awaits them. *)
Definition request_calls (index : Z) : list Action :=
  [CallHSet Succeeds index; CallPublish Succeeds index; CallInsert Succeeds index].

(** Whether an action writes the placeholder of [index] again, as a later
    request for the same index does. *)
Definition resubmits (index : Z) (a : Action) : bool :=
  match a with
  | CallHSet _ j => j =? index
  | _ => false
  end.

(** ** The worker's [fib] *)

Section Fib.

(** Once the loop counter is [n] steps short of passing [index], any fuel
    above [n] lets the loop finish, having advanced the accumulators [n]
    times. *)
Lemma fib_for_steps (n : nat) :
  forall (fuel : nat) (i index a b : Z) (start : nat),
    index + 1 - i = Z.of_nat n ->
    (n < fuel)%nat ->
    fib_for fuel i index a b = Some (snd (fold_left advance (seq start n) (a, b))).
Proof.
  induction n as [|n IH]; intros fuel i index a b start Hn Hfuel.
  - destruct fuel as [|fuel]; [lia|]. simpl.
    destruct (Z.leb_spec i index); [lia | reflexivity].
  - destruct fuel as [|fuel]; [lia|]. simpl.
    destruct (Z.leb_spec i index); [|lia].
    apply IH; lia.
Qed.

Lemma fib_fuel_enough (index : Z) (fuel : nat) :
  (Z.to_nat index <= fuel)%nat ->
  fib_fuel fuel index = Some (fib_sequence index).
Proof.
  intros Hfuel. unfold fib_fuel, fib_sequence.
  destruct (Z.ltb_spec index 2); [reflexivity|].
  apply fib_for_steps; lia.
Qed.

Lemma fib_is_sequence (index : Z) : fib index = fib_sequence index.
Proof.
  unfold fib. rewrite (fib_fuel_enough index (Z.to_nat index)); [reflexivity | lia].
Qed.

(** The accumulators run through the textbook sequence. *)
Lemma advance_textbook (n : nat) :
  forall (j start : nat),
    fold_left advance (seq start n) (textbook j, textbook (S j)) =
    (textbook (j + n), textbook (S (j + n))).
Proof.
  induction n as [|n IH]; intros j start.
  - simpl. now rewrite Nat.add_0_r.
  - cbn [seq fold_left].
    replace (advance (textbook j, textbook (S j)) start)
      with (textbook (S j), textbook (S (S j))).
    + rewrite IH. now rewrite <- Nat.add_succ_comm.
    + unfold advance. f_equal. simpl. lia.
Qed.

(** The off-by-one of section 4.2: [fib] is the textbook sequence shifted by
    one place, on every index from 0. *)
Lemma fib_shifted_textbook (i : Z) : 0 <= i -> fib i = textbook (S (Z.to_nat i)).
Proof.
  intros Hi. rewrite fib_is_sequence. unfold fib_sequence.
  destruct (Z.ltb_spec i 2).
  - assert (i = 0 \/ i = 1) as [-> | ->] by lia; reflexivity.
  - change (1, 1) with (textbook 1, textbook 2).
    rewrite advance_textbook. cbn [snd]. f_equal. lia.
Qed.

(** A property checked on each of 0..40 holds on the whole range. *)
Lemma range_0_40 (P : Z -> bool) :
  forallb P (map Z.of_nat (seq 0 41)) = true ->
  forall i, 0 <= i <= 40 -> P i = true.
Proof.
  intros H i Hi. rewrite forallb_forall in H. apply H.
  apply in_map_iff. exists (Z.to_nat i). split; [lia|].
  apply in_seq. lia.
Qed.

Lemma fib_bounds (i : Z) : 0 <= i <= 40 -> 1 <= fib i <= 165580141.
Proof.
  intros Hi.
  pose proof (range_0_40 (fun i => (1 <=? fib i) && (fib i <=? 165580141))) as H.
  specialize (H ltac:(vm_compute; reflexivity) i Hi). simpl in H.
  apply andb_prop in H as [H1 H2]. lia.
Qed.

(** C1. For every index from 0 to 40 the worker's [fib] returns the value
    of the iterative sequence of section 4.2 (accumulators seeded at 1, 1
    and advanced once per step from 2 to the index), whatever fuel at least
    the index the loop is given; it returns 1 below 2; the value stays below
    2^53, so the additions are exact in JavaScript's Numbers; and
    fib(0)=1, fib(1)=1, fib(2)=2, fib(5)=8, fib(10)=89, fib(40)=165580141. *)
Theorem fib_iterative_sequence (i : Z) :
  0 <= i <= 40 ->
  fib i = fib_sequence i /\
  (forall fuel, (Z.to_nat i <= fuel)%nat -> fib_fuel fuel i = Some (fib_sequence i)) /\
  (i < 2 -> fib i = 1) /\
  fib i < 2 ^ 53 /\
  (fib 0 = 1 /\ fib 1 = 1 /\ fib 2 = 2 /\ fib 5 = 8 /\ fib 10 = 89 /\
   fib 40 = 165580141).
Proof.
  intros Hi. split; [apply fib_is_sequence|].
  split; [intros fuel Hfuel; now apply fib_fuel_enough|].
  split.
  - intros Hlt. rewrite fib_is_sequence. unfold fib_sequence.
    destruct (Z.ltb_spec i 2); [reflexivity | lia].
  - split.
    + pose proof (fib_bounds i Hi) as Hb.
      assert (165580141 < 2 ^ 53) by (vm_compute; reflexivity). lia.
    + repeat split; vm_compute; reflexivity.
Qed.

Lemma fib_iterative_sequence_witness :
  0 <= 5 <= 40 /\ fib 5 = fib_sequence 5.
Proof.
  split; [lia | apply (fib_iterative_sequence 5); lia].
Defined.

End Fib.

(** ** Numerals *)

Section Numerals.

Lemma to_int_not_nil (z : Z) :
  Z.to_int z <> Decimal.Pos Decimal.Nil /\ Z.to_int z <> Decimal.Neg Decimal.Nil.
Proof.
  destruct z as [|p|p]; simpl; split; try discriminate;
    intros [= H]; exact (DecimalPos.Unsigned.to_uint_nonnil p H).
Qed.

Lemma toString_inj (a b : Z) : toString a = toString b -> a = b.
Proof.
  unfold toString. intros H.
  destruct (to_int_not_nil a) as [Ha1 Ha2].
  destruct (to_int_not_nil b) as [Hb1 Hb2].
  pose proof (NilZero.isi _ Ha1 Ha2) as Ia.
  pose proof (NilZero.isi _ Hb1 Hb2) as Ib.
  rewrite H in Ia. rewrite Ia in Ib. injection Ib as Hab.
  rewrite <- (DecimalZ.of_to a), <- (DecimalZ.of_to b). now rewrite Hab.
Qed.

(** A numeral starts with a digit or a minus sign: it is never the
    placeholder. *)
Lemma toString_not_placeholder (z : Z) : toString z <> placeholder.
Proof.
  unfold toString, placeholder.
  destruct z as [|p|p]; simpl; try discriminate.
  destruct (Pos.to_uint p); discriminate.
Qed.

End Numerals.

(** ** Validation in the gateway *)

Section Validation.

(** [validate] on a field whose conversion to a string completes. *)
Lemma validate_string (index : JsValue) (s : string) :
  ToString index = Some s ->
  validate index =
    if is_missing index then Normal (inl (rejection_response MissingInput))
    else match parseInt10 s with
         | None => Normal (inl (rejection_response MalformedInput))
         | Some k =>
             if k <? 0 then Normal (inl (rejection_response OutOfRangeBelow))
             else if k >? 40 then Normal (inl (rejection_response OutOfRangeAbove))
             else if negb (strictEq k (parseFloatS s))
                  then Normal (inl (rejection_response NonInteger))
                  else Normal (inr k)
         end.
Proof.
  intros Hs. unfold validate, parseInt, parseFloat. rewrite Hs. simpl.
  destruct (is_missing index); [reflexivity|].
  destruct (parseInt10 s) as [k|]; reflexivity.
Qed.

(** A field whose conversion throws is not missing, and validation throws. *)
Lemma validate_throws (index : JsValue) :
  ToString index = None -> validate index = Throw TypeError.
Proof.
  intros Hs. unfold validate, parseInt. rewrite Hs.
  destruct index; try discriminate; reflexivity.
Qed.

(** A field that parses is present. *)
Lemma parsed_not_missing (index : JsValue) (k : Z) :
  parseInt index = Some (Some k) -> is_missing index = false.
Proof.
  unfold parseInt. destruct index as [| | | | s | |]; try reflexivity; try discriminate.
  simpl. destruct s; [discriminate | reflexivity].
Qed.

(** The handler's test for a missing field is check (1) of the list. *)
Lemma is_missing_spec (index : JsValue) :
  is_missing index = absent_null_or_empty index.
Proof.
  destruct index as [| | | | s | |]; try reflexivity.
  destruct s; reflexivity.
Qed.

(** [first_failure], check by check. *)
Lemma first_failure_cases (index : JsValue) (s : string) :
  first_failure index s =
    if is_missing index then Some MissingInput
    else match parseInt10 s with
         | None => Some MalformedInput
         | Some k =>
             if k <? 0 then Some OutOfRangeBelow
             else if k >? 40 then Some OutOfRangeAbove
             else if negb (strictEq k (parseFloatS s)) then Some NonInteger
             else None
         end.
Proof.
  rewrite is_missing_spec.
  unfold first_failure, first_failure_in, checks. simpl.
  destruct (absent_null_or_empty index); [reflexivity|].
  destruct (parseInt10 s) as [k|]; simpl; [|reflexivity].
  destruct (k <? 0); [reflexivity|].
  destruct (k >? 40); [reflexivity|].
  destruct (negb (strictEq k (parseFloatS s))); reflexivity.
Qed.

(** C3, as the code has it.  Validation applies five checks in the order
    of section 4.1 and the first one that fails alone determines the
    rejection, whatever the later checks would say: (1) the field is
    absent, null or the empty string - missing input; (2) it has no
    base-10 integer prefix - malformed; (3) the parsed value is below 0;
    (4) it is above 40; (5) it is not equal to the value [parseFloat]
    gives, the decimal prefix rounded to the nearest binary64 -
    non-integer.  The response is that of the first failing check of this
    list, and the index is accepted exactly when none fails.  (When
    converting the field to a string throws, which the second check does
    first, the field is not missing and there is no rejection: the handler
    throws.) *)
Theorem validation_first_failure_wins (index : JsValue) :
  match ToString index with
  | Some s =>
      (forall r, first_failure index s = Some r ->
                 validate index = Normal (inl (rejection_response r))) /\
      (first_failure index s = None ->
       exists k, parseInt10 s = Some k /\ validate index = Normal (inr k))
  | None =>
      absent_null_or_empty index = false /\ validate index = Throw TypeError
  end.
Proof.
  destruct (ToString index) as [s|] eqn:Hs.
  2:{ split; [destruct index; try discriminate; reflexivity | now apply validate_throws]. }
  rewrite (validate_string index s Hs), first_failure_cases.
  destruct (is_missing index).
  { split; [intros r [= <-]; reflexivity | discriminate]. }
  destruct (parseInt10 s) as [k|].
  2:{ split; [intros r [= <-]; reflexivity | discriminate]. }
  destruct (k <? 0).
  { split; [intros r [= <-]; reflexivity | discriminate]. }
  destruct (k >? 40).
  { split; [intros r [= <-]; reflexivity | discriminate]. }
  destruct (negb (strictEq k (parseFloatS s))).
  { split; [intros r [= <-]; reflexivity | discriminate]. }
  split; [discriminate | intros _; exists k; split; reflexivity].
Qed.

(** On ["-3.5"] the third check and the fifth both fail; the third decides. *)
Lemma validation_first_failure_wins_witness :
  lessThan (parseInt10 "-3.5") 0 = true /\
  strictNotEq (parseInt10 "-3.5") (parseFloatS "-3.5") = true /\
  validate (JsString "-3.5") = Normal (inl (rejection_response OutOfRangeBelow)).
Proof.
  split; [reflexivity|]. split; [vm_compute; reflexivity|].
  apply (validation_first_failure_wins (JsString "-3.5")). reflexivity.
Defined.

(** C3 as stated fails in its fifth check: the value of
    ["7.00000000000000000000000001"] as written is not 7, so the list as
    stated rejects it as a non-integer, yet validation accepts it as 7. *)
Lemma unrounded_value_is_not_compared :
  first_failure_in checks_as_stated (JsString "7.00000000000000000000000001")
    "7.00000000000000000000000001" = Some NonInteger /\
  first_failure (JsString "7.00000000000000000000000001")
    "7.00000000000000000000000001" = None /\
  validate (JsString "7.00000000000000000000000001") = Normal (inr 7).
Proof.
  split; [vm_compute; reflexivity|]. split; vm_compute; reflexivity.
Qed.

End Validation.

(** ** The [POST /values] handler *)

Section Gateway.

Ltac run_handler :=
  unfold post_values, try_catch, bind, ret, throw, hSet, publish, query_insert,
    store_call, server_print, record_call, set_values, set_channel, set_ledger;
  simpl.

Lemma post_values_rejected (env : Env) (index : JsValue) (w : World) (r : Response) :
  validate index = Normal (inl r) ->
  post_values env index w = (Normal r, w).
Proof. intros H. unfold post_values. rewrite H. reflexivity. Qed.

Lemma post_values_throws (env : Env) (index : JsValue) (w : World) (e : JsError) :
  validate index = Throw e ->
  post_values env index w = (Throw e, w).
Proof. intros H. unfold post_values. rewrite H. reflexivity. Qed.

(** An accepted index: the three store calls in order, up to the first
    that throws; 201 when none does, 500 and a line on the console
    otherwise. *)
Lemma post_values_accepted (env : Env) (index : JsValue) (k : Z) (w : World) :
  validate index = Normal (inr k) ->
  exists r w',
    post_values env index w = (Normal r, w') /\
    worker_console w' = worker_console w /\
    (values w' = values w \/ values w' = <[toString k := placeholder]> (values w)) /\
    (ledger w' = ledger w \/ ledger w' = insert_on_conflict_do_nothing k (ledger w)) /\
    (exists l, calls w' = calls w ++ l /\
               incl l [HSet (toString k) placeholder; Publish (toString k); Insert k]) /\
    if stores_ok env then
      r = {| status := 201; body := WorkingBody true k "Calculation started" |} /\
      values w' = <[toString k := placeholder]> (values w) /\
      channel w' = channel w ++ [toString k] /\
      ledger w' = insert_on_conflict_do_nothing k (ledger w) /\
      calls w' = calls w ++ [HSet (toString k) placeholder; Publish (toString k); Insert k] /\
      server_console w' = server_console w
    else
      status r = 500 /\
      exists e, server_console w' =
                  server_console w ++ [(Error, "Error saving value: " +:+ errorName e)].
Proof.
  intros H. unfold post_values. rewrite H.
  destruct env as [[|[]] [|[]] [|[]]]; run_handler;
    eexists; eexists; (split; [reflexivity|]); simpl;
    rewrite <- ?app_assoc; simpl;
    (split; [reflexivity|]); (split; [auto|]); (split; [auto|]);
    (split; [eexists; split; [reflexivity | intros c Hc; simpl in *; tauto]|]);
    first [ split; [reflexivity|];
            first [exists RedisError; reflexivity | exists PgError; reflexivity]
          | repeat split; reflexivity ].
Qed.

(** Every outcome of the handler: a validation response with the stores
    untouched, a TypeError with the stores untouched, or the outcome of an
    accepted index. *)
Lemma post_values_outcome (env : Env) (index : JsValue) (w : World) :
  (exists r, validate index = Normal (inl r) /\ post_values env index w = (Normal r, w)) \/
  (validate index = Throw TypeError /\ post_values env index w = (Throw TypeError, w)) \/
  (exists k, validate index = Normal (inr k)).
Proof.
  destruct (ToString index) as [s|] eqn:Hs.
  - destruct (validate index) as [[r|k]|e] eqn:Hv.
    + left. exists r. split; [reflexivity | now apply post_values_rejected].
    + right. right. now exists k.
    + exfalso. rewrite (validate_string index s Hs) in Hv.
      destruct (is_missing index); [discriminate|].
      destruct (parseInt10 s) as [k|]; [|discriminate].
      destruct (k <? 0); [discriminate|].
      destruct (k >? 40); [discriminate|].
      destruct (negb (strictEq k (parseFloatS s))); discriminate.
  - right. left. pose proof (validate_throws index Hs) as Hv.
    split; [exact Hv | now apply post_values_throws].
Qed.

(** A validation response has status 400 or 422; an accepted index is
    answered with 201 or 500. *)
Lemma rejection_status (r : Rejection) :
  status (rejection_response r) = 400 \/ status (rejection_response r) = 422.
Proof. destruct r; simpl; auto. Qed.

Lemma validate_rejection (index : JsValue) (r : Response) :
  validate index = Normal (inl r) -> exists rej, r = rejection_response rej.
Proof.
  unfold validate. destruct (is_missing index).
  { intros [= <-]. now exists MissingInput. }
  destruct (parseInt index) as [[k|]|]; [| |discriminate].
  2:{ intros [= <-]. now exists MalformedInput. }
  destruct (k <? 0). { intros [= <-]. now exists OutOfRangeBelow. }
  destruct (k >? 40). { intros [= <-]. now exists OutOfRangeAbove. }
  destruct (parseFloat index) as [f|]; [|discriminate].
  destruct (negb (strictEq k f)); [|discriminate].
  intros [= <-]. now exists NonInteger.
Qed.

Lemma accepted_status (env : Env) (index : JsValue) (k : Z) (w w' : World) (r : Response) :
  validate index = Normal (inr k) ->
  post_values env index w = (Normal r, w') ->
  (stores_ok env = true /\ r = {| status := 201; body := WorkingBody true k "Calculation started" |}) \/
  (stores_ok env = false /\ status r = 500).
Proof.
  intros Hv Hp.
  destruct (post_values_accepted env index k w Hv) as (r0 & w0 & Hp0 & _ & _ & _ & _ & Hcase).
  rewrite Hp in Hp0. injection Hp0 as <- <-.
  destruct (stores_ok env); [left | right]; split; try reflexivity; apply Hcase.
Qed.

End Gateway.

(** ** Responses of [POST /values] *)

Section Responses.

(** When the conversion to a string completes, the index is accepted
    exactly when it is present, parses into 0..40 and equals its
    [parseFloat] value. *)
Lemma accepted_iff (index : JsValue) (s : string) (k : Z) :
  ToString index = Some s ->
  validate index = Normal (inr k) <->
  is_missing index = false /\ parseInt10 s = Some k /\ 0 <= k <= 40 /\
  strictEq k (parseFloatS s) = true.
Proof.
  intros Hs. rewrite (validate_string index s Hs).
  destruct (is_missing index).
  { split; [discriminate | intros [? _]; discriminate]. }
  destruct (parseInt10 s) as [k'|].
  2:{ split; [discriminate | intros (_ & ? & _); discriminate]. }
  destruct (Z.ltb_spec k' 0).
  { split; [discriminate | intros (_ & [= ->] & ? & _); lia]. }
  destruct (Z.gtb_spec k' 40).
  { split; [discriminate | intros (_ & [= ->] & ? & _); lia]. }
  destruct (strictEq k' (parseFloatS s)) eqn:He; simpl.
  - split.
    + intros [= <-]. repeat split; try reflexivity; try lia. exact He.
    + intros (_ & [= ->] & _). reflexivity.
  - split; [discriminate|]. intros (_ & [= ->] & _ & Hk). congruence.
Qed.

(** The same, from the outcome: an accepted index has a string form. *)
Lemma accepted_has_string (index : JsValue) (k : Z) :
  validate index = Normal (inr k) ->
  exists s, ToString index = Some s /\ is_missing index = false /\
            parseInt10 s = Some k /\ 0 <= k <= 40 /\
            strictEq k (parseFloatS s) = true.
Proof.
  intros Hv. destruct (ToString index) as [s|] eqn:Hs.
  - exists s. split; [reflexivity|]. now apply (accepted_iff index s k Hs).
  - rewrite (validate_throws index Hs) in Hv. discriminate.
Qed.

(** [validate] against the list of checks. *)
Lemma validate_by_first_failure (index : JsValue) (s : string) :
  ToString index = Some s ->
  match first_failure index s with
  | Some r => validate index = Normal (inl (rejection_response r))
  | None => exists k, validate index = Normal (inr k)
  end.
Proof.
  intros Hs. rewrite (validate_string index s Hs), first_failure_cases.
  destruct (is_missing index); [reflexivity|].
  destruct (parseInt10 s) as [k|]; [|reflexivity].
  destruct (k <? 0); [reflexivity|].
  destruct (k >? 40); [reflexivity|].
  destruct (negb (strictEq k (parseFloatS s))); [reflexivity|].
  now exists k.
Qed.

(** C2, as the code has it.  Whenever the handler responds, the status
    follows the checks: 400 when the index is missing, malformed, below 0
    or not an integer; 422 when the parsed value is above 40; and for an
    index that passes every check, 201 with body [working: true] and the
    accepted index when the three store calls succeed, 500 when one of
    them fails.  It responds unless converting the index to a string
    throws, and then it touches no store. *)
Theorem post_values_status_table (env : Env) (index : JsValue) (w : World) :
  match ToString index with
  | Some s =>
      exists r w',
        post_values env index w = (Normal r, w') /\
        match first_failure index s with
        | Some OutOfRangeAbove => status r = 422
        | Some _ => status r = 400
        | None =>
            exists k, parseInt10 s = Some k /\ 0 <= k <= 40 /\
              ((stores_ok env = true /\
                r = {| status := 201;
                       body := WorkingBody true k "Calculation started" |}) \/
               (stores_ok env = false /\ status r = 500))
        end
  | None => post_values env index w = (Throw TypeError, w)
  end.
Proof.
  destruct (ToString index) as [s|] eqn:Hs.
  2:{ apply post_values_throws. now apply validate_throws. }
  pose proof (validate_by_first_failure index s Hs) as Hv.
  destruct (first_failure index s) as [rej|].
  - exists (rejection_response rej), w.
    split; [now apply post_values_rejected|]. destruct rej; reflexivity.
  - destruct Hv as [k Hv].
    destruct (post_values_accepted env index k w Hv) as (r & w' & Hp & _).
    exists r, w'. split; [exact Hp|]. exists k.
    apply (accepted_iff index s k Hs) in Hv as Hacc.
    destruct Hacc as (_ & Hk & Hr & _).
    split; [exact Hk|]. split; [exact Hr|].
    exact (accepted_status env index k w w' r Hv Hp).
Qed.

Lemma post_values_status_table_witness :
  exists r w',
    post_values all_ok (JsNumber (integer 41)) empty_world = (Normal r, w') /\
    status r = 422.
Proof.
  destruct (post_values_status_table all_ok (JsNumber (integer 41)) empty_world)
    as (r & w' & Hp & Hst).
  exists r, w'. split; [exact Hp | exact Hst].
Defined.

(** C2 as stated fails: an index below 0 is out of range, and the handler
    answers 400, not 422. *)
Lemma below_zero_status_is_not_422 :
  ~ (forall (env : Env) (index : JsValue) (w w' : World) (r : Response) (k : Z),
       parseInt index = Some (Some k) -> k < 0 \/ 40 < k ->
       post_values env index w = (Normal r, w') -> status r = 422).
Proof.
  intros H.
  specialize (H all_ok (JsNumber (integer (-1))) empty_world empty_world
                {| status := 400; body := ErrorBody "Index must be non-negative" |} (-1)).
  simpl in H. discriminate H; [reflexivity | lia | reflexivity].
Qed.

(** C4, as the code has it.  A submitted index that is present, converts
    to a string and has no base-10 integer prefix ([parseInt] yields [NaN])
    is rejected as malformed, with status 400 and the stores untouched; and
    whatever is answered 201 parsed to an integer of 0..40. *)
Theorem unparsable_index_is_malformed (env : Env) (index : JsValue) (s : string) (w : World) :
  ToString index = Some s ->
  (is_missing index = false -> parseInt10 s = None ->
   post_values env index w = (Normal (rejection_response MalformedInput), w)) /\
  (forall r w', post_values env index w = (Normal r, w') -> status r = 201 ->
                exists k, parseInt10 s = Some k /\ 0 <= k <= 40).
Proof.
  intros Hs. split.
  - intros Hm Hp. apply post_values_rejected.
    rewrite (validate_string index s Hs), Hm, Hp. reflexivity.
  - intros r w' Hp H201.
    destruct (post_values_outcome env index w) as [(r0 & Hv & Hp0)|[(Hv & Hp0)|(k & Hv)]].
    + rewrite Hp in Hp0. injection Hp0 as -> ->.
      destruct (validate_rejection index r0 Hv) as [rej ->].
      destruct (rejection_status rej) as [E|E]; rewrite E in H201; discriminate.
    + rewrite Hp in Hp0. discriminate.
    + exists k. apply (accepted_iff index s k Hs) in Hv. tauto.
Qed.

Lemma unparsable_index_is_malformed_witness :
  ToString (JsString "abc") = Some "abc"%string /\
  post_values all_ok (JsString "abc") empty_world =
    (Normal (rejection_response MalformedInput), empty_world).
Proof.
  split; [reflexivity|].
  apply (unparsable_index_is_malformed all_ok (JsString "abc") "abc" empty_world);
    reflexivity.
Defined.

(** C4 as stated fails: ["5abc"] is not a well-formed base-10 integer, yet
    it is accepted as index 5 and the placeholder is written. *)
Lemma digit_prefix_reaches_accepted_path :
  well_formed_integer "5abc" = false /\
  exists w',
    post_values all_ok (JsString "5abc") empty_world =
      (Normal {| status := 201; body := WorkingBody true 5 "Calculation started" |}, w') /\
    values w' !! "5"%string = Some placeholder.
Proof.
  split; [reflexivity|].
  eexists. split; [vm_compute; reflexivity|]. vm_compute. reflexivity.
Qed.

End Responses.

(** ** Rounding to binary64 *)

Section Rounding.

Lemma roundEven_floor (n d : Z) : 0 <= n -> 0 < d -> n / d <= roundEven n d.
Proof.
  intros Hn Hd. unfold roundEven.
  destruct (2 * (n mod d) <? d); [lia|].
  destruct (d <? 2 * (n mod d)); [lia|].
  destruct (Z.even (n / d)); lia.
Qed.

Lemma roundEven_near (n d : Z) :
  0 <= n -> 0 < d -> Z.abs (2 * d * roundEven n d - 2 * n) <= d.
Proof.
  intros Hn Hd. unfold roundEven.
  pose proof (Z.div_mod n d ltac:(lia)) as Hdm.
  pose proof (Z.mod_pos_bound n d Hd) as Hm.
  destruct (Z.ltb_spec (2 * (n mod d)) d); [nia|].
  destruct (Z.ltb_spec d (2 * (n mod d))); [nia|].
  destruct (Z.even (n / d)); nia.
Qed.

Lemma pow2_below_quotient (num den : Z) :
  0 < num -> 0 < den ->
  1 <= Z.log2 num - Z.log2 den ->
  den * 2 ^ (Z.log2 num - Z.log2 den - 1) <= num.
Proof.
  intros Hn Hd Hp.
  destruct (Z.log2_spec num Hn) as [Hlo _].
  destruct (Z.log2_spec den Hd) as [_ Hhi].
  pose proof (Z.log2_nonneg den) as Hld.
  assert (2 ^ Z.succ (Z.log2 den) * 2 ^ (Z.log2 num - Z.log2 den - 1) = 2 ^ Z.log2 num) as E.
  { rewrite <- Z.pow_add_r by lia. f_equal. lia. }
  assert (0 < 2 ^ (Z.log2 num - Z.log2 den - 1)) by (apply Z.pow_pos_nonneg; lia).
  nia.
Qed.

(** [2^p <= num / den] for the exponent [p] that [binary64] picks, when it
    is not negative. *)
Lemma exponent_below (num den : Z) :
  0 < num -> 0 < den ->
  let p0 := Z.log2 num - Z.log2 den in
  let p := if belowPow2 num den p0 then p0 - 1 else p0 in
  0 <= p -> den * 2 ^ p <= num.
Proof.
  intros Hn Hd p0 p Hp. subst p. unfold belowPow2 in *.
  destruct (Z.leb_spec 0 p0).
  - destruct (Z.ltb_spec num (den * 2 ^ p0)); [|lia].
    subst p0. apply pow2_below_quotient; lia.
  - destruct (num * 2 ^ (- p0) <? den); lia.
Qed.

Lemma strictEq_binary64_close (neg : bool) (m e10 k : Z) :
  0 <= m -> 0 <= k <= 40 ->
  strictEq k (binary64 neg m e10) = true ->
  if 0 <=? e10 then signed neg (m * 10 ^ e10) = k
  else 2 ^ 48 * Z.abs (signed neg m - k * 10 ^ (- e10)) <= 10 ^ (- e10).
Proof.
  intros Hm Hk. unfold binary64.
  destruct (Z.eqb_spec m 0) as [->|Hm0].
  { simpl. intros H. apply Z.eqb_eq in H.
    assert (k = 0) as -> by (destruct neg; simpl in H; lia).
    assert (0 <= 10 ^ (- e10)) by (apply Z.pow_nonneg; lia).
    destruct (0 <=? e10); destruct neg; simpl; lia. }
  set (num := if 0 <=? e10 then m * 10 ^ e10 else m).
  set (den := if 0 <=? e10 then 1 else 10 ^ (- e10)).
  assert (0 < num) as Hnum.
  { subst num. destruct (Z.leb_spec 0 e10); [|lia].
    assert (0 < 10 ^ e10) by (apply Z.pow_pos_nonneg; lia). nia. }
  assert (0 < den) as Hden.
  { subst den. destruct (Z.leb_spec 0 e10); [lia|]. apply Z.pow_pos_nonneg; lia. }
  pose proof (exponent_below num den Hnum Hden) as HB. cbv zeta in HB.
  set (p := if belowPow2 num den (Z.log2 num - Z.log2 den)
            then Z.log2 num - Z.log2 den - 1 else Z.log2 num - Z.log2 den) in *.
  set (e := Z.max (p - 52) (-1074)).
  set (sig := if 0 <=? e then roundEven num (den * 2 ^ e) else roundEven (num * 2 ^ (- e)) den).
  intros Heq.
  assert (2 ^ 48 * Z.abs (signed neg num - k * den) <= den) as G.
  { destruct ((0 <=? e) && (2 ^ 1024 <=? sig * 2 ^ e)); [discriminate Heq|].
    unfold strictEq in Heq.
    assert (0 <= sig) as Hsig.
    { subst sig. destruct (0 <=? e) eqn:He.
      - apply Z.leb_le in He.
        assert (0 < 2 ^ e) by (apply Z.pow_pos_nonneg; lia).
        etransitivity; [|apply roundEven_floor; nia]. apply Z.div_pos; nia.
      - apply Z.leb_gt in He.
        assert (0 < 2 ^ (- e)) by (apply Z.pow_pos_nonneg; lia).
        etransitivity; [|apply roundEven_floor; nia]. apply Z.div_pos; nia. }
    destruct (Z.leb_spec 0 e) as [He|He].
    - exfalso. apply Z.eqb_eq in Heq.
      assert (p = e + 52) as Hp by (subst e; lia).
      assert (0 < 2 ^ e) as Hpe by (apply Z.pow_pos_nonneg; lia).
      assert (2 ^ p = 2 ^ e * 2 ^ 52) as Epow by (rewrite Hp, Z.pow_add_r; lia).
      specialize (HB ltac:(lia)). rewrite Epow in HB.
      assert (2 ^ 52 <= sig) as Hbig.
      { subst sig. destruct (Z.leb_spec 0 e); [|lia].
        etransitivity; [|apply roundEven_floor; nia].
        apply Z.div_le_lower_bound; nia. }
      assert (2 ^ 52 = 4503599627370496) as E52 by reflexivity.
      destruct neg; simpl in Heq; nia.
    - apply Z.eqb_eq in Heq.
      assert (0 < 2 ^ (- e)) as Hpe by (apply Z.pow_pos_nonneg; lia).
      destruct (Z.le_gt_cases (-46) e) as [He46|He47].
      + exfalso.
        assert (p = e + 52) as Hp by (subst e; lia).
        assert (2 ^ p * 2 ^ (- e) = 2 ^ 52) as Epow.
        { rewrite <- Z.pow_add_r by lia. f_equal. lia. }
        specialize (HB ltac:(lia)).
        assert (2 ^ 52 <= sig) as Hbig.
        { subst sig. destruct (Z.leb_spec 0 e); [lia|].
          etransitivity; [|apply roundEven_floor; nia].
          apply Z.div_le_lower_bound; nia. }
        assert (2 ^ (- e) <= 2 ^ 46) as Hle by (apply Z.pow_le_mono_r; lia).
        assert (2 ^ 52 = 4503599627370496) as E52 by reflexivity.
        assert (2 ^ 46 = 70368744177664) as E46 by reflexivity.
        destruct neg; simpl in Heq; nia.
      + assert (2 ^ 47 <= 2 ^ (- e)) as Hge by (apply Z.pow_le_mono_r; lia).
        assert (2 ^ 47 = 140737488355328) as E47 by reflexivity.
        assert (2 ^ 48 = 281474976710656) as E48 by reflexivity.
        pose proof (roundEven_near (num * 2 ^ (- e)) den ltac:(nia) Hden) as Hnear.
        assert (sig = roundEven (num * 2 ^ (- e)) den) as Esig.
        { subst sig. destruct (Z.leb_spec 0 e); [lia | reflexivity]. }
        rewrite <- Esig in Hnear. clearbody sig.
        destruct neg; simpl in Heq |- *; nia. }
  subst num den. destruct (Z.leb_spec 0 e10).
  - destruct neg; simpl in G |- *; lia.
  - exact G.
Qed.

Lemma spanDigits_nonneg (s : string) :
  Forall (fun d => 0 <= d) (fst (spanDigits s)).
Proof.
  induction s as [|c r IH]; simpl; [constructor|].
  unfold digitValue.
  destruct ((48 <=? Z.of_N (N_of_ascii c)) && (Z.of_N (N_of_ascii c) <=? 57)) eqn:E.
  - destruct (spanDigits r) as [ds t]. simpl in *. constructor; [|exact IH].
    apply andb_prop in E as [E _]. apply Z.leb_le in E. lia.
  - constructor.
Qed.

Lemma digitsToZ_nonneg (ds : list Z) :
  Forall (fun d => 0 <= d) ds -> 0 <= digitsToZ ds.
Proof.
  unfold digitsToZ. intros H.
  assert (forall acc, 0 <= acc -> 0 <= fold_left (fun acc d => 10 * acc + d) ds acc) as G.
  { induction H as [|d ds Hd _ IH]; intros acc Hacc; simpl; [exact Hacc|].
    apply IH. lia. }
  apply G. lia.
Qed.

Lemma decimalPrefix_nonneg (s : string) (neg : bool) (m e : Z) :
  decimalPrefix s = Some (neg, Some (m, e)) -> 0 <= m.
Proof.
  unfold decimalPrefix.
  destruct (spanSign (trimStart s)) as [sg r].
  destruct (String.prefix "Infinity" r); [discriminate|].
  pose proof (spanDigits_nonneg r) as Hip.
  destruct (spanDigits r) as [ip r1]. simpl in Hip.
  assert (Forall (fun d => 0 <= d) (fst (spanFraction r1))) as Hfp.
  { unfold spanFraction. destruct r1 as [|c r']; [constructor|].
    destruct (Ascii.eqb c "."); [apply spanDigits_nonneg | constructor]. }
  destruct (spanFraction r1) as [fp r2]. simpl in Hfp.
  assert (0 <= digitsToZ (ip ++ fp)) as Hm.
  { apply digitsToZ_nonneg. apply Forall_app. split; assumption. }
  destruct ip, fp; intros [= <- <- <-]; exact Hm.
Qed.

(** An integer of 0..40, however it is written, is not rounded: the Number
    for it is that integer. *)
Lemma binary64_exact (neg : bool) (m e10 k : Z) :
  0 <= m -> 0 <= k <= 40 ->
  (if 0 <=? e10 then signed neg m * 10 ^ e10 = k
   else signed neg m = k * 10 ^ (- e10)) ->
  strictEq k (binary64 neg m e10) = true.
Proof.
  intros Hm Hk He. unfold binary64.
  assert (0 < 10 ^ Z.abs e10) as Hpow by (apply Z.pow_pos_nonneg; lia).
  destruct (Z.eqb_spec m 0) as [->|Hm0].
  { assert (k = 0) as ->.
    { destruct (Z.leb_spec 0 e10); destruct neg; simpl in He; [lia | lia | |].
      - rewrite <- Z.abs_neq in He by lia. nia.
      - rewrite <- Z.abs_neq in He by lia. nia. }
    destruct neg; reflexivity. }
  set (num := if 0 <=? e10 then m * 10 ^ e10 else m).
  set (den := if 0 <=? e10 then 1 else 10 ^ (- e10)).
  assert (0 < den /\ num = k * den /\ neg = false /\ 0 < k) as (Hden & Hnum & -> & Hk0).
  { subst num den. destruct (Z.leb_spec 0 e10).
    - rewrite Z.abs_eq in Hpow by lia. destruct neg; simpl in He; nia.
    - rewrite Z.abs_neq in Hpow by lia. destruct neg; simpl in He; nia. }
  set (p0 := Z.log2 num - Z.log2 den).
  set (p := if belowPow2 num den p0 then p0 - 1 else p0).
  assert (p <= 6) as Hp.
  { assert (p <= p0) by (subst p; destruct (belowPow2 num den p0); lia).
    assert (Z.log2 num <= Z.log2 k + Z.log2 den + 1)
      by (rewrite Hnum; apply Z.log2_mul_above; lia).
    assert (Z.log2 k <= Z.log2 40) by (apply Z.log2_le_mono; lia).
    change (Z.log2 40) with 5 in *. subst p0. lia. }
  set (e := Z.max (p - 52) (-1074)).
  assert (e < 0) as He0 by (subst e; lia).
  destruct (Z.leb_spec 0 e) as [|_]; [lia|]. cbn [andb].
  unfold strictEq. destruct (Z.leb_spec 0 e) as [|_]; [lia|].
  cbn [signed]. apply Z.eqb_eq. unfold roundEven.
  replace (num * 2 ^ (- e)) with (k * 2 ^ (- e) * den) by (rewrite Hnum; ring).
  rewrite Z.div_mul, Z.mod_mul by lia.
  destruct (Z.ltb_spec (2 * 0) den); [reflexivity | lia].
Qed.

(** A string whose value as written is an integer of 0..40 has that
    integer as its [parseFloat] value. *)
Lemma exact_value_is_kept (s : string) (k : Z) :
  0 <= k <= 40 ->
  exact_value_equals k s = true -> strictEq k (parseFloatS s) = true.
Proof.
  intros Hk Hx. unfold parseFloatS.
  pose proof (decimalPrefix_nonneg s) as Hnn.
  unfold exact_value_equals in Hx.
  destruct (decimalPrefix s) as [[neg [[m e]|]]|]; try discriminate.
  specialize (Hnn neg m e eq_refl).
  apply binary64_exact; [exact Hnn | exact Hk|].
  destruct (0 <=? e); now apply Z.eqb_eq.
Qed.

(** A decimal prefix whose exact value is not an integer and has at most
    14 digits after the point is not rounded to an integer of 0..40. *)
Lemma short_fraction_not_rounded (s : string) (k : Z) :
  0 <= k <= 40 ->
  exact_value_is_integer s = false ->
  at_most_fraction_digits 14 s = true ->
  strictEq k (parseFloatS s) = false.
Proof.
  intros Hk Hx Hf. unfold parseFloatS.
  pose proof (decimalPrefix_nonneg s) as Hnn.
  unfold exact_value_is_integer, at_most_fraction_digits in *.
  destruct (decimalPrefix s) as [[neg [[m e]|]]|]; try reflexivity.
  specialize (Hnn neg m e eq_refl).
  destruct (Z.leb_spec 0 e) as [He|He]; [discriminate|].
  apply Z.eqb_neq in Hx.
  destruct (strictEq k (binary64 neg m e)) eqn:Heq; [exfalso | reflexivity].
  apply (strictEq_binary64_close neg m e k Hnn Hk) in Heq.
  destruct (Z.leb_spec 0 e); [lia|].
  assert (0 < 10 ^ (- e)) as Hpos by (apply Z.pow_pos_nonneg; lia).
  assert (10 ^ 14 < 2 ^ 48) as Hlt by reflexivity.
  assert (2 ^ 48 = 281474976710656) as E48 by reflexivity.
  assert (10 ^ 14 = 100000000000000) as E14 by reflexivity.
  assert (signed neg m = k * 10 ^ (- e)) as Hz.
  { destruct (Z.leb_spec 0 (e + 14)) as [Hs|Hl].
    - assert (10 ^ (- e) <= 10 ^ 14) as Hle by (apply Z.pow_le_mono_r; lia).
      lia.
    - apply Z.eqb_eq in Hf.
      set (D := 10 ^ (- (e + 14))) in *.
      assert (0 < D) as HD by (apply Z.pow_pos_nonneg; lia).
      assert (10 ^ (- e) = D * 10 ^ 14) as Esplit.
      { subst D. rewrite <- Z.pow_add_r by lia. f_equal. lia. }
      assert (m = D * (m / D)) as Em by (apply Z.div_exact; lia).
      set (q := m / D) in *. rewrite Esplit in Heq |- *.
      assert (signed neg m - k * (D * 10 ^ 14) = D * (signed neg q - k * 10 ^ 14)) as Ediff.
      { rewrite Em at 1. destruct neg; simpl; ring. }
      rewrite Ediff, Z.abs_mul, (Z.abs_eq D) in Heq by lia.
      assert (signed neg q = k * 10 ^ 14) as Eq by nia.
      rewrite Em at 1. destruct neg; simpl in Eq |- *; nia. }
  apply Hx.
  destruct neg; simpl in Hz.
  - replace m with ((- k) * 10 ^ (- e)) by lia. apply Z.mod_mul. lia.
  - rewrite Hz. apply Z.mod_mul. lia.
Qed.

End Rounding.

(** ** Rejections *)

Section Rejections.

(** C5, as the code has it.  An index whose truncated base-10 parse lies in
    0..40 is rejected as a non-integer, with status 400 and the stores
    untouched, whenever that parse differs from its [parseFloat] value -
    the decimal prefix rounded to the nearest binary64 - and in particular
    whenever the exact value of the decimal prefix is not an integer and
    has at most 14 digits after the decimal point, as for ["3.5"]. *)
Theorem fractional_index_is_rejected
    (env : Env) (index : JsValue) (s : string) (k : Z) (w : World) :
  ToString index = Some s ->
  parseInt10 s = Some k ->
  0 <= k <= 40 ->
  strictEq k (parseFloatS s) = false \/
  (exact_value_is_integer s = false /\ at_most_fraction_digits 14 s = true) ->
  post_values env index w = (Normal (rejection_response NonInteger), w).
Proof.
  intros Hs Hk Hr Hf. apply post_values_rejected.
  assert (strictEq k (parseFloatS s) = false) as Hne.
  { destruct Hf as [Hf|[Hx Hd]]; [exact Hf|].
    now apply short_fraction_not_rounded. }
  assert (is_missing index = false) as Hm.
  { apply (parsed_not_missing index k). unfold parseInt. now rewrite Hs, <- Hk. }
  rewrite (validate_string index s Hs), Hm, Hk.
  destruct (Z.ltb_spec k 0); [lia|].
  destruct (Z.gtb_spec k 40); [lia|].
  rewrite Hne. reflexivity.
Qed.

Lemma fractional_index_is_rejected_witness :
  ToString (JsString "3.5") = Some "3.5"%string /\
  parseInt10 "3.5" = Some 3 /\
  0 <= 3 <= 40 /\
  (exact_value_is_integer "3.5" = false /\ at_most_fraction_digits 14 "3.5" = true) /\
  post_values all_ok (JsString "3.5") empty_world =
    (Normal {| status := 400; body := ErrorBody "Index must be an integer" |}, empty_world).
Proof.
  assert (exact_value_is_integer "3.5" = false /\
          at_most_fraction_digits 14 "3.5" = true) as Hx.
  { split; vm_compute; reflexivity. }
  split; [reflexivity|]. split; [reflexivity|]. split; [lia|]. split; [exact Hx|].
  apply (fractional_index_is_rejected all_ok (JsString "3.5") "3.5" 3 empty_world);
    [reflexivity | reflexivity | lia | right; exact Hx].
Defined.

(** ["3.50000000000000000"] is written with seventeen digits after the
    point; its value has one, and it is rejected. *)
Lemma trailing_zeros_do_not_count :
  exact_value_is_integer "3.50000000000000000" = false /\
  at_most_fraction_digits 14 "3.50000000000000000" = true /\
  at_most_fraction_digits 0 "3.50000000000000000" = false /\
  validate (JsString "3.50000000000000000") =
    Normal (inl (rejection_response NonInteger)).
Proof. repeat split; vm_compute; reflexivity. Qed.

(** C5 as stated fails: the exact value of ["3.0000000000000000000000001"]
    is not an integer and its truncated parse is 3, yet [parseFloat] rounds
    it to 3 and the index is accepted as 3. *)
Lemma rounded_fraction_is_accepted :
  parseInt10 "3.0000000000000000000000001" = Some 3 /\
  exact_value_is_integer "3.0000000000000000000000001" = false /\
  exists w',
    post_values all_ok (JsString "3.0000000000000000000000001") empty_world =
      (Normal {| status := 201; body := WorkingBody true 3 "Calculation started" |}, w') /\
    values w' !! "3"%string = Some placeholder.
Proof.
  split; [reflexivity|]. split; [vm_compute; reflexivity|].
  eexists. split; [vm_compute; reflexivity|]. vm_compute. reflexivity.
Qed.

(** The gateway's fifth check fails only where the check as stated
    does: whatever validation rejects, the list as stated rejects for the
    same reason.  The converse fails ([unrounded_value_is_not_compared]). *)
Lemma rejections_are_as_stated (index : JsValue) (s : string) (r : Rejection) :
  first_failure index s = Some r ->
  first_failure_in checks_as_stated index s = Some r.
Proof.
  unfold first_failure, first_failure_in, checks, checks_as_stated.
  cbn [List.find fst snd option_map].
  destruct (absent_null_or_empty index); [trivial|].
  destruct (parseInt10 s) as [k|]; cbn [isNaN lessThan greaterThan
    strictNotEq differs_from_unrounded]; [|trivial].
  destruct (Z.ltb_spec k 0); [trivial|].
  destruct (Z.gtb_spec k 40); [trivial|].
  destruct (strictEq k (parseFloatS s)) eqn:Heq; cbn [negb option_map snd];
    [discriminate|].
  destruct (exact_value_equals k s) eqn:Hx; [|trivial].
  rewrite (exact_value_is_kept s k ltac:(lia) Hx) in Heq. discriminate.
Qed.

(** C6. A submission whose parsed value is above 40 is rejected with status
    422, one whose parsed value is below 0 with status 400: the two are
    distinct, and neither touches the stores. *)
Theorem too_high_differs_from_too_low
    (env env' : Env) (high low : JsValue) (kh kl : Z) (w w0 : World) :
  parseInt high = Some (Some kh) -> 40 < kh ->
  parseInt low = Some (Some kl) -> kl < 0 ->
  post_values env high w = (Normal (rejection_response OutOfRangeAbove), w) /\
  post_values env' low w0 = (Normal (rejection_response OutOfRangeBelow), w0) /\
  status (rejection_response OutOfRangeAbove) = 422 /\
  status (rejection_response OutOfRangeBelow) = 400 /\
  status (rejection_response OutOfRangeAbove) <> status (rejection_response OutOfRangeBelow).
Proof.
  intros Hh Hkh Hl Hkl.
  split; [|split].
  - apply post_values_rejected. unfold validate.
    rewrite (parsed_not_missing high kh Hh), Hh.
    destruct (Z.ltb_spec kh 0); [lia|].
    destruct (Z.gtb_spec kh 40); [reflexivity | lia].
  - apply post_values_rejected. unfold validate.
    rewrite (parsed_not_missing low kl Hl), Hl.
    destruct (Z.ltb_spec kl 0); [reflexivity | lia].
  - simpl. split; [reflexivity|]. split; [reflexivity | discriminate].
Qed.

Lemma too_high_differs_from_too_low_witness :
  parseInt (JsNumber (integer 41)) = Some (Some 41) /\ 40 < 41 /\
  parseInt (JsNumber (integer (-1))) = Some (Some (-1)) /\ -1 < 0 /\
  post_values all_ok (JsNumber (integer 41)) empty_world =
    (Normal {| status := 422; body := ErrorBody "Index too high (maximum: 40)" |}, empty_world) /\
  post_values all_ok (JsNumber (integer (-1))) empty_world =
    (Normal {| status := 400; body := ErrorBody "Index must be non-negative" |}, empty_world).
Proof.
  split; [reflexivity|]. split; [lia|]. split; [reflexivity|]. split; [lia|].
  destruct (too_high_differs_from_too_low all_ok all_ok
              (JsNumber (integer 41)) (JsNumber (integer (-1))) 41 (-1)
              empty_world empty_world eq_refl ltac:(lia) eq_refl ltac:(lia))
    as (H1 & H2 & _).
  split; [exact H1 | exact H2].
Defined.

(** C7. A submission rejected by validation - any response with status 400
    or 422 - leaves the stores as they were: no field of the hash is
    written, nothing is published, no row is inserted, and no store call is
    issued at all. *)
Theorem rejection_precedes_store_calls
    (env : Env) (index : JsValue) (w w' : World) (r : Response) :
  post_values env index w = (Normal r, w') ->
  status r = 400 \/ status r = 422 ->
  validate index = Normal (inl r) /\
  w' = w /\
  values w' = values w /\ channel w' = channel w /\ ledger w' = ledger w /\
  calls w' = calls w.
Proof.
  intros Hp Hst.
  destruct (post_values_outcome env index w) as [(r0 & Hv & Hp0)|[(Hv & Hp0)|(k & Hv)]].
  - rewrite Hp in Hp0. injection Hp0 as -> ->. repeat split. exact Hv.
  - rewrite Hp in Hp0. discriminate.
  - exfalso.
    destruct (accepted_status env index k w w' r Hv Hp) as [[_ ->]|[_ E]];
      simpl in Hst; [destruct Hst; discriminate | rewrite E in Hst; destruct Hst; discriminate].
Qed.

Lemma rejection_precedes_store_calls_witness :
  post_values all_ok (JsNumber (integer (-1))) empty_world =
    (Normal {| status := 400; body := ErrorBody "Index must be non-negative" |}, empty_world) /\
  calls empty_world = [].
Proof.
  split; [reflexivity|].
  destruct (rejection_precedes_store_calls all_ok (JsNumber (integer (-1)))
              empty_world empty_world
              {| status := 400; body := ErrorBody "Index must be non-negative" |}
              eq_refl (or_introl eq_refl)) as (_ & _ & _ & _ & _ & H).
  exact H.
Defined.

End Rejections.

(** ** The worker's handler *)

Section Subscriber.

(** Every run of the handler completes normally; what it leaves behind
    depends on the message and on the fate of the [hSet] call. *)
Lemma on_message_outcome (fate : Fate) (msg : string) (w : World) :
  exists w',
    on_message fate msg w = (Normal tt, w') /\
    ledger w' = ledger w /\ channel w' = channel w /\
    server_console w' = server_console w /\
    match parseInt10 msg with
    | Some k =>
        if (k <? 0) || (k >? 40) then
          values w' = values w /\ calls w' = calls w /\
          worker_console w' =
            worker_console w ++ [(Error, "Invalid message received: " +:+ msg)]
        else
          values w' =
            (if took_effect fate
             then <[toString k := toString (fib k)]> (values w) else values w) /\
          calls w' = calls w ++ [HSet (toString k) (toString (fib k))] /\
          worker_console w' =
            worker_console w ++
              [(Log, "Calculating Fibonacci for index: " +:+ toString k);
               if succeeded fate
               then (Log, "Successfully calculated fib(" +:+ toString k +:+ ") = "
                            +:+ toString (fib k))
               else (Error, "Error processing message: RedisError")]
    | None =>
        values w' = values w /\ calls w' = calls w /\
        worker_console w' =
          worker_console w ++ [(Error, "Invalid message received: " +:+ msg)]
    end.
Proof.
  unfold on_message, try_catch.
  destruct (parseInt10 msg) as [k|].
  - destruct ((k <? 0) || (k >? 40)).
    + eexists. split; [reflexivity|]. repeat split.
    + destruct fate as [|[]];
        unfold bind, hSet, store_call, worker_print, record_call, set_values;
        cbn [values channel ledger server_console worker_console calls errorName
             took_effect succeeded];
        eexists; (split; [reflexivity|]);
        cbn [values channel ledger server_console worker_console calls];
        rewrite <- ?app_assoc; repeat split.
  - eexists. split; [reflexivity|]. repeat split.
Qed.

Lemma on_message_completes (fate : Fate) (msg : string) (w : World) :
  exists w', on_message fate msg w = (Normal tt, w').
Proof.
  destruct (on_message_outcome fate msg w) as (w' & H & _). now exists w'.
Qed.

(** The subscription runs every delivery: no handler run ends it. *)
Lemma subscription_completes (deliveries : list Delivery) :
  forall w, exists w', subscription deliveries w = (Normal tt, w').
Proof.
  induction deliveries as [|d rest IH]; intros w; simpl.
  - now exists w.
  - unfold bind.
    destruct (on_message_completes (write d) (message d) w) as [w1 ->].
    apply IH.
Qed.

Lemma subscription_app (before after : list Delivery) (w w1 : World) :
  subscription before w = (Normal tt, w1) ->
  subscription (before ++ after) w = subscription after w1.
Proof.
  revert w. induction before as [|d rest IH]; intros w; simpl.
  - intros [= ->]. reflexivity.
  - unfold bind.
    destruct (on_message_completes (write d) (message d) w) as [w2 ->].
    apply IH.
Qed.

End Subscriber.

Section WorkerProperties.

(** C9. Whatever was delivered before and whatever comes after, a message
    is handled without an error leaving the handler, and the subscription
    goes on to the deliveries that follow.  A message that does not parse
    or parses outside 0..40 is discarded: the hash is not written, no store
    call is issued, one line is logged.  When the [hSet] of a valid message
    throws, the error is caught and logged.  A valid message whose [hSet]
    succeeds stores the numeral of [fib] under the numeral of the index. *)
Theorem worker_absorbs_every_message
    (before after : list Delivery) (d : Delivery) (w : World) :
  exists w1 w2 w3,
    subscription before w = (Normal tt, w1) /\
    on_message (write d) (message d) w1 = (Normal tt, w2) /\
    subscription after w2 = (Normal tt, w3) /\
    subscription (before ++ d :: after) w = (Normal tt, w3) /\
    (discards (message d) ->
     values w2 = values w1 /\ calls w2 = calls w1 /\
     worker_console w2 =
       worker_console w1 ++ [(Error, "Invalid message received: " +:+ message d)]) /\
    (forall k, computes (message d) k -> succeeded (write d) = false ->
     worker_console w2 =
       worker_console w1 ++
         [(Log, "Calculating Fibonacci for index: " +:+ toString k);
          (Error, "Error processing message: RedisError")]) /\
    (forall k, computes (message d) k -> write d = Succeeds ->
     values w2 = <[toString k := toString (fib k)]> (values w1)).
Proof.
  destruct (subscription_completes before w) as [w1 H1].
  destruct (on_message_outcome (write d) (message d) w1) as (w2 & H2 & _ & _ & _ & Hcase).
  destruct (subscription_completes after w2) as [w3 H3].
  exists w1, w2, w3.
  split; [exact H1|]. split; [exact H2|]. split; [exact H3|].
  split.
  { rewrite (subscription_app before (d :: after) w w1 H1). simpl.
    unfold bind. rewrite H2. exact H3. }
  split; [|split].
  - unfold discards. intros Hd.
    destruct (parseInt10 (message d)) as [k|]; [|exact Hcase].
    destruct (Z.ltb_spec k 0); simpl in Hcase; [exact Hcase|].
    destruct (Z.gtb_spec k 40); simpl in Hcase; [exact Hcase | lia].
  - intros k [Hk Hr] Hok. rewrite Hk, Hok in Hcase.
    destruct (Z.ltb_spec k 0); [lia|].
    destruct (Z.gtb_spec k 40); [lia|]. simpl in Hcase. tauto.
  - intros k [Hk Hr] Hok. rewrite Hk, Hok in Hcase.
    destruct (Z.ltb_spec k 0); [lia|].
    destruct (Z.gtb_spec k 40); [lia|]. simpl in Hcase. tauto.
Qed.

(** After a malformed message and a message whose [hSet] throws, the
    message ["7"] is still computed. *)
Lemma worker_absorbs_every_message_witness :
  discards "abc" /\ computes "7" 7 /\
  exists w3,
    subscription
      ([ {| message := "abc"; write := Succeeds |};
         {| message := "8"; write := Fails false |} ] ++
       {| message := "7"; write := Succeeds |} :: []) empty_world = (Normal tt, w3) /\
    values w3 !! "7"%string = Some "21"%string.
Proof.
  assert (computes "7" 7) as Hc by (split; [reflexivity | lia]).
  split; [exact I|]. split; [exact Hc|].
  destruct (worker_absorbs_every_message
              [ {| message := "abc"; write := Succeeds |};
                {| message := "8"; write := Fails false |} ]
              [] {| message := "7"; write := Succeeds |} empty_world)
    as (w1 & w2 & w3 & H1 & H2 & H3 & H4 & _ & _ & Hok).
  exists w3. split; [exact H4|].
  injection H3 as <-.
  rewrite (Hok 7 Hc eq_refl).
  change "7"%string with (toString 7). rewrite lookup_insert_eq. reflexivity.
Defined.

End WorkerProperties.

(** ** The pipeline *)

Section Pipeline.

Lemma existsb_eqb_In (k : Z) (rows : list Z) :
  existsb (Z.eqb k) rows = true <-> In k rows.
Proof.
  rewrite existsb_exists. split.
  - intros (x & Hx & He). apply Z.eqb_eq in He. now subst.
  - intros H. exists k. split; [exact H | apply Z.eqb_refl].
Qed.

Lemma insert_present (k : Z) (rows : list Z) :
  In k rows -> insert_on_conflict_do_nothing k rows = rows.
Proof.
  intros H. unfold insert_on_conflict_do_nothing.
  apply existsb_eqb_In in H. now rewrite H.
Qed.

Lemma insert_In (k : Z) (rows : list Z) :
  In k (insert_on_conflict_do_nothing k rows).
Proof.
  unfold insert_on_conflict_do_nothing.
  destruct (existsb (Z.eqb k) rows) eqn:E.
  - now apply existsb_eqb_In.
  - apply in_or_app. right. now left.
Qed.

Lemma insert_keeps (k x : Z) (rows : list Z) :
  In x rows -> In x (insert_on_conflict_do_nothing k rows).
Proof.
  intros H. unfold insert_on_conflict_do_nothing.
  destruct (existsb (Z.eqb k) rows); [exact H | apply in_or_app; now left].
Qed.

(** The [UNIQUE] constraint is kept. *)
Lemma insert_NoDup (k : Z) (rows : list Z) :
  List.NoDup rows -> List.NoDup (insert_on_conflict_do_nothing k rows).
Proof.
  intros H. unfold insert_on_conflict_do_nothing.
  destruct (existsb (Z.eqb k) rows) eqn:E; [exact H|].
  assert (~ In k rows) as Hn.
  { intros Hin. apply existsb_eqb_In in Hin. congruence. }
  clear E. induction rows as [|a rows IH]; simpl.
  - constructor; [intros [] | constructor].
  - inversion H as [|? ? Ha Hrows]; subst. constructor.
    + intros Hin. apply in_app_or in Hin as [Hin|[->|[]]]; [now apply Ha|].
      apply Hn. now left.
    + apply IH; [exact Hrows|]. intros Hin. apply Hn. now right.
Qed.

(** What one request can do to the stores. *)
Lemma post_values_effect (env : Env) (index : JsValue) (w : World) :
  snd (post_values env index w) = w \/
  exists k, 0 <= k <= 40 /\ validate index = Normal (inr k) /\
    let w' := snd (post_values env index w) in
    (values w' = values w \/ values w' = <[toString k := placeholder]> (values w)) /\
    (ledger w' = ledger w \/ ledger w' = insert_on_conflict_do_nothing k (ledger w)) /\
    (forall c, In c (calls w') ->
               In c (calls w) \/ c = HSet (toString k) placeholder \/
               c = Publish (toString k) \/ c = Insert k).
Proof.
  destruct (post_values_outcome env index w) as [(r0 & Hv & Hp)|[(Hv & Hp)|(k & Hv)]].
  - left. now rewrite Hp.
  - left. now rewrite Hp.
  - right. exists k.
    destruct (accepted_has_string index k Hv) as (s & _ & _ & _ & Hr & _).
    split; [exact Hr|]. split; [exact Hv|].
    destruct (post_values_accepted env index k w Hv)
      as (r & w' & Hp & _ & Hval & Hled & (l & Hcalls & Hl) & _).
    rewrite Hp. simpl.
    split; [exact Hval|]. split; [exact Hled|].
    intros c Hc. rewrite Hcalls in Hc. apply in_app_or in Hc as [Hc|Hc]; [now left|].
    apply Hl in Hc. simpl in Hc. right. intuition auto.
Qed.

(** What one delivery can do to the stores. *)
Lemma on_message_effect (fate : Fate) (msg : string) (w : World) :
  let w' := snd (on_message fate msg w) in
  ledger w' = ledger w /\
  ((values w' = values w /\ calls w' = calls w) \/
   exists k, 0 <= k <= 40 /\
     (values w' = values w \/ values w' = <[toString k := toString (fib k)]> (values w)) /\
     calls w' = calls w ++ [HSet (toString k) (toString (fib k))]).
Proof.
  destruct (on_message_outcome fate msg w) as (w' & H & Hl & _ & _ & Hcase).
  rewrite H. simpl. split; [exact Hl|].
  destruct (parseInt10 msg) as [k|]; [|left; tauto].
  destruct (Z.ltb_spec k 0); simpl in Hcase; [left; tauto|].
  destruct (Z.gtb_spec k 40); simpl in Hcase; [left; tauto|].
  right. exists k. split; [lia|].
  destruct Hcase as (Hv & Hc & _). rewrite Hv, Hc.
  destruct (took_effect fate); auto.
Qed.

Lemma placeholder_entry (k : Z) : 0 <= k <= 40 -> result_entry (toString k) placeholder.
Proof. intros Hk. exists k. auto. Qed.

Lemma result_entry_of_fib (k : Z) :
  0 <= k <= 40 -> result_entry (toString k) (toString (fib k)).
Proof. intros Hk. exists k. auto. Qed.

Lemma invariant_insert (m : gmap string string) (field value : string) :
  (forall f v, m !! f = Some v -> result_entry f v) ->
  result_entry field value ->
  forall f v, <[field := value]> m !! f = Some v -> result_entry f v.
Proof.
  intros Hm He f v Hf. destruct (decide (field = f)) as [->|Hne].
  - rewrite lookup_insert_eq in Hf. now injection Hf as <-.
  - rewrite lookup_insert_ne in Hf by exact Hne. now apply Hm.
Qed.

(** Both writers keep the invariant. *)
Lemma step_invariant (w : World) (e : Event) :
  cache_invariant w -> cache_invariant (step w e).
Proof.
  intros [Hval Hcalls]. destruct e as [env index|d]; simpl.
  - pose proof (post_values_effect env index w) as H. cbv zeta in H.
    set (w' := snd (post_values env index w)) in *.
    destruct H as [->|(k & Hk & _ & Hv & _ & Hc)]; [split; assumption|].
    split.
    + destruct Hv as [->| ->]; [exact Hval|].
      apply invariant_insert; [exact Hval | now apply placeholder_entry].
    + intros f v Hin. apply Hc in Hin as [Hin|[[= -> ->]|[Hin|Hin]]];
        [now apply Hcalls | now apply placeholder_entry | discriminate | discriminate].
  - pose proof (on_message_effect (write d) (message d) w) as H. cbv zeta in H.
    set (w' := snd (on_message (write d) (message d) w)) in *.
    destruct H as [_ [[Hv Hc]|(k & Hk & Hv & Hc)]].
    + split; [rewrite Hv | rewrite Hc]; assumption.
    + split.
      * destruct Hv as [->| ->]; [exact Hval|].
        apply invariant_insert; [exact Hval | now apply result_entry_of_fib].
      * intros f v Hin. rewrite Hc in Hin.
        apply in_app_or in Hin as [Hin|[[= <- <-]|[]]];
          [now apply Hcalls | now apply result_entry_of_fib].
Qed.

Lemma run_invariant (events : list Event) :
  forall w, cache_invariant w -> cache_invariant (run events w).
Proof.
  induction events as [|e rest IH]; intros w Hw; simpl; [exact Hw|].
  apply IH. now apply step_invariant.
Qed.

Lemma empty_world_invariant : cache_invariant empty_world.
Proof.
  split; simpl.
  - intros f v H. rewrite lookup_empty in H. discriminate.
  - intros f v [].
Qed.

End Pipeline.

Section PipelineProperties.

(** C10. From any state of the Result Cache in which every field holds,
    under the numeral of an index k of 0..40, the string ["Calculating..."]
    or the numeral of fib(k), every sequence of requests and deliveries -
    with any outcome of the store calls - leads to such a state, and every
    [hSet] ever issued writes such a value; the field determines k; and
    since no numeral equals ["Calculating..."], a reader of
    [/values/current] tells a pending entry from a completed one by
    comparing with that string. *)
Theorem result_cache_invariant (events : list Event) (w : World) :
  cache_invariant w ->
  cache_invariant (run events w) /\
  (forall field value,
     get_values_current (run events w) !! field = Some value ->
     exists k, 0 <= k <= 40 /\ field = toString k /\
       (forall k', field = toString k' -> k' = k) /\
       (value = placeholder \/
        (value <> placeholder /\ value = toString (fib k)))) /\
  (forall field value,
     In (HSet field value) (calls (run events w)) ->
     exists k, 0 <= k <= 40 /\ field = toString k /\
       (value = placeholder \/ value = toString (fib k))).
Proof.
  intros Hw. pose proof (run_invariant events w Hw) as [Hval Hcalls].
  split; [split; assumption|]. split.
  - intros field value Hf. unfold get_values_current in Hf.
    destruct (Hval field value Hf) as (k & Hk & -> & Hvalue).
    exists k. split; [exact Hk|]. split; [reflexivity|].
    split; [intros k' Hk'; symmetry; now apply toString_inj|].
    destruct Hvalue as [->| ->]; [now left|]. right.
    split; [apply toString_not_placeholder | reflexivity].
  - intros field value Hin. exact (Hcalls field value Hin).
Qed.

(** A request for 7 and its delivery, then a malformed delivery and a
    second request: the entry for 7 is pending again. *)
Lemma result_cache_invariant_witness :
  cache_invariant empty_world /\
  cache_invariant
    (run [Submit all_ok (JsString "7");
          Deliver {| message := "7"; write := Succeeds |};
          Deliver {| message := "7x"; write := Succeeds |};
          Submit all_ok (JsNumber (integer 7))] empty_world).
Proof.
  split; [exact empty_world_invariant|].
  apply (result_cache_invariant
           [Submit all_ok (JsString "7");
            Deliver {| message := "7"; write := Succeeds |};
            Deliver {| message := "7x"; write := Succeeds |};
            Submit all_ok (JsNumber (integer 7))] empty_world).
  exact empty_world_invariant.
Defined.

Lemma step_ledger (w : World) (e : Event) :
  (List.NoDup (ledger w) -> List.NoDup (ledger (step w e))) /\
  (forall x, In x (ledger w) -> In x (ledger (step w e))).
Proof.
  destruct e as [env index|d]; simpl.
  - pose proof (post_values_effect env index w) as H. cbv zeta in H.
    set (w' := snd (post_values env index w)) in *.
    destruct H as [->|(k & _ & _ & _ & [->| ->] & _)]; try tauto.
    split; [apply insert_NoDup | intros x; apply insert_keeps].
  - pose proof (on_message_effect (write d) (message d) w) as H. cbv zeta in H.
    set (w' := snd (on_message (write d) (message d) w)) in *.
    destruct H as [-> _]. tauto.
Qed.

Lemma run_ledger (events : list Event) :
  forall w,
    (List.NoDup (ledger w) -> List.NoDup (ledger (run events w))) /\
    (forall x, In x (ledger w) -> In x (ledger (run events w))).
Proof.
  induction events as [|e rest IH]; intros w; simpl; [tauto|].
  destruct (step_ledger w e) as [H1 H2].
  destruct (IH (step w e)) as [H3 H4]. split; auto.
Qed.

(** No handler removes a field of the hash. *)
Lemma step_keeps_fields (w : World) (e : Event) (field : string) :
  is_Some (values w !! field) -> is_Some (values (step w e) !! field).
Proof.
  intros Hf. destruct e as [env index|d]; simpl.
  - pose proof (post_values_effect env index w) as H. cbv zeta in H.
    set (w' := snd (post_values env index w)) in *.
    destruct H as [->|(k & _ & _ & [->| ->] & _)]; try exact Hf.
    rewrite lookup_insert. destruct (decide (toString k = field)); [eauto | exact Hf].
  - pose proof (on_message_effect (write d) (message d) w) as H. cbv zeta in H.
    set (w' := snd (on_message (write d) (message d) w)) in *.
    destruct H as [_ [[-> _]|(k & _ & [->| ->] & _)]]; try exact Hf.
    rewrite lookup_insert. destruct (decide (toString k = field)); [eauto | exact Hf].
Qed.

Lemma run_keeps_fields (events : list Event) (field : string) :
  forall w, is_Some (values w !! field) -> is_Some (values (run events w) !! field).
Proof.
  induction events as [|e rest IH]; intros w Hf; simpl; [exact Hf|].
  apply IH. now apply step_keeps_fields.
Qed.

(** A request answered 201 was accepted and all three calls succeeded. *)
Lemma created_means_stored (env : Env) (index : JsValue) (w w' : World) (r : Response) :
  post_values env index w = (Normal r, w') -> status r = 201 ->
  exists k, 0 <= k <= 40 /\ validate index = Normal (inr k) /\
    r = {| status := 201; body := WorkingBody true k "Calculation started" |} /\
    values w' = <[toString k := placeholder]> (values w) /\
    ledger w' = insert_on_conflict_do_nothing k (ledger w).
Proof.
  intros Hp H201.
  destruct (post_values_outcome env index w) as [(r0 & Hv & Hp0)|[(Hv & Hp0)|(k & Hv)]].
  - rewrite Hp in Hp0. injection Hp0 as -> ->.
    destruct (validate_rejection index r0 Hv) as [rej ->].
    destruct (rejection_status rej) as [E|E]; rewrite E in H201; discriminate.
  - rewrite Hp in Hp0. discriminate.
  - exists k. destruct (accepted_has_string index k Hv) as (s & _ & _ & _ & Hr & _).
    split; [exact Hr|]. split; [exact Hv|].
    destruct (post_values_accepted env index k w Hv)
      as (r1 & w1 & Hp1 & _ & _ & _ & _ & Hcase).
    rewrite Hp in Hp1. injection Hp1 as <- <-.
    destruct (stores_ok env).
    + destruct Hcase as (-> & Hval & _ & Hled & _). auto.
    + destruct Hcase as [E _]. rewrite E in H201. discriminate.
Qed.

(** An accepted index whose three store calls succeed is answered 201. *)
Lemma accepted_and_stored (env : Env) (index : JsValue) (k : Z) (w : World) :
  validate index = Normal (inr k) -> stores_ok env = true ->
  exists w',
    post_values env index w =
      (Normal {| status := 201; body := WorkingBody true k "Calculation started" |}, w') /\
    values w' = <[toString k := placeholder]> (values w) /\
    ledger w' = insert_on_conflict_do_nothing k (ledger w).
Proof.
  intros Hv Hok.
  destruct (post_values_accepted env index k w Hv)
    as (r & w' & Hp & _ & _ & _ & _ & Hcase).
  rewrite Hok in Hcase. destruct Hcase as (-> & Hval & _ & Hled & _).
  exists w'. auto.
Qed.

(** C8. Submitting the same valid index twice, whatever requests and
    deliveries come in between, leaves exactly one ledger row for the
    number: on a ledger that respects the [UNIQUE] constraint the second
    insert changes nothing, and it is not an error - when the store calls
    go through, the second request is answered 201 like the first.  The
    field of the Result Cache is overwritten with the placeholder, whatever
    it held, and the set of fields is the same as before the second
    request. *)
Theorem resubmission_is_idempotent
    (env env' : Env) (index : JsValue) (between : list Event)
    (w w1 : World) (r1 : Response) :
  List.NoDup (ledger w) ->
  post_values env index w = (Normal r1, w1) -> status r1 = 201 ->
  stores_ok env' = true ->
  exists k w2,
    r1 = {| status := 201; body := WorkingBody true k "Calculation started" |} /\
    post_values env' index (run between w1) = (Normal r1, w2) /\
    count_occ Z.eq_dec (ledger w2) k = 1%nat /\
    ledger w2 = ledger (run between w1) /\
    values w2 = <[toString k := placeholder]> (values (run between w1)) /\
    values w2 !! toString k = Some placeholder /\
    dom (values w2) = dom (values (run between w1)).
Proof.
  intros Hnd Hp1 H1 Hok.
  destruct (created_means_stored env index w w1 r1 Hp1 H1)
    as (k & Hk & Hv & -> & Hval1 & Hled1).
  destruct (accepted_and_stored env' index k (run between w1) Hv Hok)
    as (w2 & Hp2 & Hval2 & Hled2).
  exists k, w2. split; [reflexivity|]. split; [exact Hp2|].
  assert (In k (ledger w1)) as Hin1 by (rewrite Hled1; apply insert_In).
  assert (List.NoDup (ledger w1)) as Hnd1 by (rewrite Hled1; now apply insert_NoDup).
  destruct (run_ledger between w1) as [Hnd2 Hin2].
  assert (ledger w2 = ledger (run between w1)) as Hsame.
  { rewrite Hled2. apply insert_present. now apply Hin2. }
  split.
  { rewrite Hsame. apply NoDup_count_occ'; auto. }
  split; [exact Hsame|]. split; [exact Hval2|].
  split; [rewrite Hval2; apply lookup_insert_eq|].
  rewrite Hval2. apply dom_insert_lookup_L.
  apply run_keeps_fields. rewrite Hval1, lookup_insert_eq. eauto.
Qed.

(** The index 7 is submitted, computed by the worker, and submitted again:
    one row, and the entry is pending again. *)
Lemma resubmission_is_idempotent_witness :
  exists w1 w2,
    post_values all_ok (JsNumber (integer 7)) empty_world =
      (Normal {| status := 201; body := WorkingBody true 7 "Calculation started" |}, w1) /\
    post_values all_ok (JsNumber (integer 7))
      (run [Deliver {| message := "7"; write := Succeeds |}] w1) =
      (Normal {| status := 201; body := WorkingBody true 7 "Calculation started" |}, w2) /\
    count_occ Z.eq_dec (ledger w2) 7 = 1%nat /\
    values w2 !! "7"%string = Some placeholder.
Proof.
  eexists.
  assert (post_values all_ok (JsNumber (integer 7)) empty_world =
            (Normal {| status := 201; body := WorkingBody true 7 "Calculation started" |},
             snd (post_values all_ok (JsNumber (integer 7)) empty_world))) as H1
    by (vm_compute; reflexivity).
  destruct (resubmission_is_idempotent all_ok all_ok (JsNumber (integer 7))
              [Deliver {| message := "7"; write := Succeeds |}]
              empty_world _ _ (List.NoDup_nil Z) H1 eq_refl eq_refl)
    as (k & w2 & Hr & Hp2 & Hc & _ & _ & Hval & _).
  injection Hr as <-.
  exists w2. split; [exact H1|]. split; [exact Hp2|]. split; [exact Hc | exact Hval].
Defined.

End PipelineProperties.

(** ** Further properties of the programs *)

Import Redis Cors Reads Client.

Section NumeralRoundTrip.

Lemma spanDigits_numeral (d : Decimal.uint) :
  spanDigits (NilEmpty.string_of_uint d) = (uint_digits d, EmptyString).
Proof.
  induction d; cbn [NilEmpty.string_of_uint spanDigits uint_digits];
    try reflexivity;
    match goal with
    | |- context [digitValue ?c] =>
        let v := eval vm_compute in (digitValue c) in
        change (digitValue c) with v
    end; rewrite IHd; reflexivity.
Qed.

Lemma fold_digits_acc (d : Decimal.uint) :
  forall acc : positive,
    fold_left (fun acc d => 10 * acc + d) (uint_digits d) (Z.pos acc) =
    Z.pos (Pos.of_uint_acc d acc).
Proof.
  induction d; intros acc; simpl; try reflexivity;
    rewrite <- IHd; f_equal; lia.
Qed.

Lemma digitsToZ_numeral (d : Decimal.uint) :
  digitsToZ (uint_digits d) = Z.of_N (Pos.of_uint d).
Proof.
  unfold digitsToZ.
  induction d; simpl; try reflexivity; try exact IHd;
    match goal with
    | |- fold_left _ _ ?k = _ => change k with (Z.pos (Z.to_pos k))
    end; rewrite fold_digits_acc; reflexivity.
Qed.

(** A numeral starts with a digit: nothing to trim, no sign to strip. *)
Lemma numeral_starts_with_digit (p : positive) :
  trimStart (NilEmpty.string_of_uint (Pos.to_uint p)) =
    NilEmpty.string_of_uint (Pos.to_uint p) /\
  spanSign (NilEmpty.string_of_uint (Pos.to_uint p)) =
    (false, NilEmpty.string_of_uint (Pos.to_uint p)) /\
  NilZero.string_of_uint (Pos.to_uint p) = NilEmpty.string_of_uint (Pos.to_uint p) /\
  uint_digits (Pos.to_uint p) <> [].
Proof.
  pose proof (Unsigned.to_uint_nonnil p) as Hn.
  destruct (Pos.to_uint p); try contradiction; repeat split; discriminate.
Qed.

Lemma parseInt10_toString (z : Z) : parseInt10 (toString z) = Some z.
Proof.
  unfold toString. destruct z as [|p|p]; [reflexivity| |].
  - simpl. destruct (numeral_starts_with_digit p) as (Ht & Hs & Hz & Hne).
    rewrite Hz. unfold parseInt10. rewrite Ht, Hs. cbv beta iota zeta.
    rewrite spanDigits_numeral.
    destruct (uint_digits (Pos.to_uint p)) eqn:E; [contradiction|].
    rewrite <- E, digitsToZ_numeral, Unsigned.of_to. reflexivity.
  - simpl. destruct (numeral_starts_with_digit p) as (Ht & Hs & Hz & Hne).
    rewrite Hz. unfold parseInt10.
    set (n := NilEmpty.string_of_uint (Pos.to_uint p)) in *.
    change (trimStart (String "-" n)) with (String "-" n).
    change (spanSign (String "-" n)) with (true, n).
    cbv beta iota zeta. subst n. rewrite spanDigits_numeral.
    destruct (uint_digits (Pos.to_uint p)) eqn:E; [contradiction|].
    rewrite <- E, digitsToZ_numeral, Unsigned.of_to. reflexivity.
Qed.

(** X2. For integers of magnitude below 2^53 - those a Number holds
    exactly and prints digit for digit - the numeral parses back to the
    integer, and two of them with the same numeral are equal: the index the
    worker parses from a message is the one whose [toString()] the gateway
    published. *)
Theorem index_numeral_round_trip (z : Z) :
  Z.abs z < 2 ^ 53 ->
  parseInt10 (toString z) = Some z /\
  (forall z', Z.abs z' < 2 ^ 53 -> toString z' = toString z -> z' = z).
Proof.
  intros _. split; [apply parseInt10_toString | intros z' _; apply toString_inj].
Qed.

End NumeralRoundTrip.

Section IntegerIndexes.

Lemma append_empty (s : string) : s +:+ "" = s.
Proof.
  induction s as [|c s IH]; [reflexivity|].
  change (String c (s +:+ "") = String c s). now rewrite IH.
Qed.

Lemma Number_toString_digits (neg : bool) (p : positive) :
  let ds := NilZero.string_of_uint (Pos.to_uint p) in
  (String.length ds <= 21)%nat ->
  Number_toString (NumFinite neg p (Z.of_nat (String.length ds))) = minus neg +:+ ds.
Proof.
  intros ds Hlen. unfold Number_toString. fold ds.
  replace ((Z.of_nat (String.length ds) <=? Z.of_nat (String.length ds)) &&
           (Z.of_nat (String.length ds) <=? 21)) with true
    by (symmetry; apply andb_true_intro; split; apply Z.leb_le; lia).
  rewrite Nat2Z.id, Nat.sub_diag. cbn [zeros]. now rewrite append_empty.
Qed.

Lemma Number_toString_integer (z : Z) :
  (String.length (toString (Z.abs z)) <= 21)%nat ->
  Number_toString (integer z) = toString z.
Proof.
  intros Hlen. destruct z as [|p|p]; [reflexivity| |].
  - change (Number_toString (integer (Z.pos p)))
      with (Number_toString
              (NumFinite false p
                 (Z.of_nat (String.length (NilZero.string_of_uint (Pos.to_uint p)))))).
    rewrite Number_toString_digits by exact Hlen. reflexivity.
  - change (Number_toString (integer (Z.neg p)))
      with (Number_toString
              (NumFinite true p
                 (Z.of_nat (String.length (NilZero.string_of_uint (Pos.to_uint p)))))).
    rewrite Number_toString_digits by exact Hlen. reflexivity.
Qed.

Lemma numeral_equals_itself (k : Z) :
  0 <= k <= 40 -> strictEq k (parseFloatS (toString k)) = true.
Proof.
  apply (range_0_40 (fun k => strictEq k (parseFloatS (toString k)))).
  vm_compute. reflexivity.
Qed.

Lemma short_numeral (k : Z) :
  0 <= k <= 40 -> (String.length (toString (Z.abs k)) <= 21)%nat.
Proof.
  intros Hk.
  pose proof (range_0_40 (fun k => (String.length (toString (Z.abs k)) <=? 21)%nat)) as H.
  specialize (H ltac:(vm_compute; reflexivity) k Hk). simpl in H.
  now apply Nat.leb_le.
Qed.

Lemma integer_index_validation (k : Z) :
  (String.length (toString (Z.abs k)) <= 21)%nat ->
  ToString (JsNumber (integer k)) = Some (toString k) /\
  validate (JsNumber (integer k)) =
    if k <? 0 then Normal (inl (rejection_response OutOfRangeBelow))
    else if k >? 40 then Normal (inl (rejection_response OutOfRangeAbove))
    else Normal (inr k).
Proof.
  intros Hlen.
  assert (ToString (JsNumber (integer k)) = Some (toString k)) as Hs.
  { simpl. now rewrite Number_toString_integer. }
  split; [exact Hs|].
  rewrite (validate_string _ _ Hs). cbn [is_missing].
  rewrite parseInt10_toString.
  destruct (Z.ltb_spec k 0); [reflexivity|].
  destruct (Z.gtb_spec k 40); [reflexivity|].
  rewrite numeral_equals_itself by lia. reflexivity.
Qed.

(** The numeral of a positive number does not start with a zero. *)
Lemma numeral_leading_digit (p : positive) (d : Decimal.uint) :
  Pos.to_uint p <> Decimal.D0 d.
Proof.
  intros E.
  pose proof (DecimalN.Unsigned.to_of (Pos.to_uint p)) as H.
  rewrite DecimalPos.Unsigned.of_to in H. simpl in H.
  rewrite E in H. rewrite DecimalFacts.unorm_D0 in H.
  unfold Decimal.unorm in H.
  destruct (Decimal.nzhead d) eqn:En;
    try (rewrite <- En in H; symmetry in H; revert H; apply DecimalFacts.nzhead_nonzero).
  injection H as ->.
  apply (DecimalPos.Unsigned.to_uint_nonzero p). exact E.
Qed.

Lemma uint_digits_length (d : Decimal.uint) :
  List.length (uint_digits d) = String.length (NilEmpty.string_of_uint d).
Proof. induction d; simpl; congruence. Qed.

(** Digits after a leading part [acc] put it at least [10^length] up. *)
Lemma fold_digits_lower (d : Decimal.uint) :
  forall acc, 0 <= acc ->
    acc * 10 ^ Z.of_nat (List.length (uint_digits d)) <=
    fold_left (fun acc d => 10 * acc + d) (uint_digits d) acc.
Proof.
  induction d; intros acc Hacc; cbn [uint_digits List.length fold_left];
    try (simpl; lia);
    (etransitivity; [|apply IHd; lia]);
    rewrite Nat2Z.inj_succ, Z.pow_succ_r by lia;
    assert (0 <= 10 ^ Z.of_nat (List.length (uint_digits d))) by (apply Z.pow_nonneg; lia);
    nia.
Qed.

(** A numeral of [n + 1] digits denotes at least [10^n]. *)
Lemma numeral_lower_bound (p : positive) :
  10 ^ (Z.of_nat (String.length (NilZero.string_of_uint (Pos.to_uint p))) - 1) <= Z.pos p.
Proof.
  destruct (numeral_starts_with_digit p) as (_ & _ & -> & _).
  rewrite <- uint_digits_length.
  pose proof (digitsToZ_numeral (Pos.to_uint p)) as Hv.
  rewrite DecimalPos.Unsigned.of_to in Hv. simpl in Hv. rewrite <- Hv.
  pose proof (numeral_leading_digit p) as Hlead.
  pose proof (DecimalPos.Unsigned.to_uint_nonnil p) as Hnil.
  unfold digitsToZ.
  destruct (Pos.to_uint p) as [|d|d|d|d|d|d|d|d|d|d];
    [contradiction | exfalso; now apply (Hlead d) | ..];
    cbn [uint_digits List.length fold_left];
    rewrite Nat2Z.inj_succ;
    replace (Z.succ (Z.of_nat (List.length (uint_digits d))) - 1)
      with (Z.of_nat (List.length (uint_digits d))) by lia;
    (etransitivity; [|apply fold_digits_lower; lia]);
    assert (0 <= 10 ^ Z.of_nat (List.length (uint_digits d))) by (apply Z.pow_nonneg; lia);
    lia.
Qed.

(** An integer of magnitude below 2^53 has at most sixteen digits. *)
Lemma safe_integer_numeral (k : Z) :
  Z.abs k < 2 ^ 53 -> (String.length (toString (Z.abs k)) <= 21)%nat.
Proof.
  intros Hk.
  assert (forall p, Z.pos p < 2 ^ 53 ->
            (String.length (NilZero.string_of_uint (Pos.to_uint p)) <= 21)%nat) as G.
  { intros p Hp. pose proof (numeral_lower_bound p) as Hl.
    set (n := String.length (NilZero.string_of_uint (Pos.to_uint p))) in *.
    destruct (Nat.le_gt_cases n 21) as [Hle|Hgt]; [exact Hle | exfalso].
    assert (10 ^ 16 <= 10 ^ (Z.of_nat n - 1)) as Hm by (apply Z.pow_le_mono_r; lia).
    assert (2 ^ 53 < 10 ^ 16) as Hc by reflexivity.
    lia. }
  destruct k as [|p|p]; [simpl; lia | exact (G p Hk) | exact (G p Hk)].
Qed.

(** X3. For an index sent as an integer Number of magnitude below 2^53 -
    the integers a Number holds exactly and prints digit for digit -
    validation is exactly the range check: below 0 it is rejected with
    400, above 40 with 422, and from 0 to 40 it is accepted as it is. *)
Theorem integer_index_is_range_checked (k : Z) :
  Z.abs k < 2 ^ 53 ->
  ToString (JsNumber (integer k)) = Some (toString k) /\
  validate (JsNumber (integer k)) =
    if k <? 0 then Normal (inl (rejection_response OutOfRangeBelow))
    else if k >? 40 then Normal (inl (rejection_response OutOfRangeAbove))
    else Normal (inr k).
Proof.
  intros Hk. apply integer_index_validation. now apply safe_integer_numeral.
Qed.

Lemma integer_index_is_range_checked_witness :
  Z.abs 41 < 2 ^ 53 /\
  validate (JsNumber (integer 41)) = Normal (inl (rejection_response OutOfRangeAbove)).
Proof.
  assert (Z.abs 41 < 2 ^ 53) as H by reflexivity.
  split; [exact H|]. apply (integer_index_is_range_checked 41 H).
Defined.

Lemma index_in_range_is_accepted_lemma (k : Z) :
  0 <= k <= 40 ->
  validate (JsNumber (integer k)) = Normal (inr k) /\
  validate (JsString (toString k)) = Normal (inr k).
Proof.
  intros Hk. split.
  - destruct (integer_index_validation k (short_numeral k Hk)) as [_ ->].
    destruct (Z.ltb_spec k 0); [lia|]. destruct (Z.gtb_spec k 40); [lia | reflexivity].
  - apply (accepted_iff (JsString (toString k)) (toString k) k eq_refl).
    assert (parseInt10 (toString k) = Some k) as Hp by apply parseInt10_toString.
    split.
    { apply (parsed_not_missing _ k). unfold Server.parseInt. simpl. now rewrite Hp. }
    split; [exact Hp|]. split; [exact Hk|]. now apply numeral_equals_itself.
Qed.

(** X4. Every index from 0 to 40, sent as a Number or as the string of its
    numeral, passes validation; and when the three store calls succeed the
    request is answered 201 with that index, the placeholder written under
    its numeral and the row inserted unless present. *)
Theorem index_in_range_is_accepted (env : Env) (k : Z) (w : World) :
  0 <= k <= 40 ->
  validate (JsNumber (integer k)) = Normal (inr k) /\
  validate (JsString (toString k)) = Normal (inr k) /\
  (stores_ok env = true ->
   exists w',
     post_values env (JsNumber (integer k)) w =
       (Normal {| status := 201; body := WorkingBody true k "Calculation started" |}, w') /\
     values w' = <[toString k := placeholder]> (values w) /\
     ledger w' = insert_on_conflict_do_nothing k (ledger w)).
Proof.
  intros Hk. destruct (index_in_range_is_accepted_lemma k Hk) as [Hn Hs].
  split; [exact Hn|]. split; [exact Hs|].
  intros Hok. now apply accepted_and_stored.
Qed.

Lemma index_in_range_is_accepted_witness :
  0 <= 40 <= 40 /\ validate (JsString "40") = Normal (inr 40).
Proof.
  split; [lia|]. apply (index_in_range_is_accepted all_ok 40 empty_world). lia.
Defined.

End IntegerIndexes.

Section StoreEffects.

Ltac run_request :=
  unfold post_values, try_catch, bind, ret, throw, hSet, publish, query_insert,
    store_call, server_print, record_call, set_values, set_channel, set_ledger;
  simpl.

(** The channel after a request for an accepted index. *)
Lemma post_values_channel (env : Env) (index : JsValue) (k : Z) (w : World) :
  validate index = Normal (inr k) ->
  let w' := snd (post_values env index w) in
  channel w' = channel w \/ channel w' = channel w ++ [toString k].
Proof.
  intros H. unfold post_values. rewrite H.
  destruct env as [[|[]] [|[]] [|[]]]; run_request; auto.
Qed.

Lemma failed_request_body (env : Env) (index : JsValue) (k : Z) (w : World) :
  validate index = Normal (inr k) -> stores_ok env = false ->
  exists w',
    post_values env index w =
      (Normal {| status := 500;
                 body := ErrorBody "Internal server error while processing request" |}, w').
Proof.
  intros H Hok. unfold post_values. rewrite H.
  destruct env as [[|[]] [|[]] [|[]]]; try discriminate Hok; run_request;
    eexists; reflexivity.
Qed.

(** X5. Nothing is rolled back.  When a store call of an accepted request
    throws, the answer is 500 and the calls after it are not issued, but
    what the earlier calls did stays: a failed [hSet] issues nothing else;
    a failed [publish] leaves the placeholder written and no row inserted;
    a failed insert leaves the placeholder written and the message
    published. *)
Theorem failed_call_stops_the_request
    (env : Env) (index : JsValue) (k : Z) (w : World) :
  validate index = Normal (inr k) ->
  stores_ok env = false ->
  exists r w',
    post_values env index w = (Normal r, w') /\ status r = 500 /\
    (succeeded (hSet_fate env) = false ->
     calls w' = calls w ++ [HSet (toString k) placeholder] /\
     channel w' = channel w /\ ledger w' = ledger w) /\
    (hSet_fate env = Succeeds -> succeeded (publish_fate env) = false ->
     values w' = <[toString k := placeholder]> (values w) /\
     calls w' = calls w ++ [HSet (toString k) placeholder; Publish (toString k)] /\
     ledger w' = ledger w) /\
    (hSet_fate env = Succeeds -> publish_fate env = Succeeds ->
     values w' = <[toString k := placeholder]> (values w) /\
     channel w' = channel w ++ [toString k] /\
     (took_effect (query_fate env) = false -> ledger w' = ledger w)).
Proof.
  intros H Hok. unfold post_values. rewrite H.
  destruct env as [[|[]] [|[]] [|[]]]; try discriminate Hok; run_request;
    eexists; eexists; (split; [reflexivity|]); simpl; rewrite <- ?app_assoc; simpl;
    (split; [reflexivity|]);
    repeat split; intros; try discriminate; try reflexivity.
Qed.

Lemma failed_call_stops_the_request_witness :
  exists r w',
    post_values {| hSet_fate := Succeeds; publish_fate := Fails false; query_fate := Succeeds |}
      (JsString "7") empty_world = (Normal r, w') /\
    status r = 500 /\
    values w' !! "7"%string = Some placeholder /\ ledger w' = [].
Proof.
  destruct (failed_call_stops_the_request
              {| hSet_fate := Succeeds; publish_fate := Fails false; query_fate := Succeeds |}
              (JsString "7") 7 empty_world ltac:(vm_compute; reflexivity) eq_refl)
    as (r & w' & Hp & H500 & _ & Hpub & _).
  destruct (Hpub eq_refl eq_refl) as (Hv & _ & Hl).
  exists r, w'. split; [exact Hp|]. split; [exact H500|].
  split; [rewrite Hv; apply lookup_insert_eq | exact Hl].
Defined.

End StoreEffects.

Section Growth.

Lemma step_channel (w : World) (e : Event) :
  exists l, channel (step w e) = channel w ++ l /\
            Forall (fun m => exists k, computes m k) l.
Proof.
  destruct e as [env index|d]; simpl.
  - destruct (post_values_outcome env index w) as [(r0 & Hv & Hp)|[(Hv & Hp)|(k & Hv)]].
    + rewrite Hp. exists []. split; [now rewrite app_nil_r | constructor].
    + rewrite Hp. exists []. split; [now rewrite app_nil_r | constructor].
    + destruct (accepted_has_string index k Hv) as (s & _ & _ & _ & Hr & _).
      destruct (post_values_channel env index k w Hv) as [-> | ->].
      * exists []. split; [now rewrite app_nil_r | constructor].
      * exists [toString k]. split; [reflexivity|].
        constructor; [|constructor]. exists k. split; [apply parseInt10_toString | exact Hr].
  - destruct (on_message_outcome (write d) (message d) w) as (w' & H & _ & Hc & _).
    rewrite H. simpl. rewrite Hc. exists []. split; [now rewrite app_nil_r | constructor].
Qed.

Lemma step_calls (w : World) (e : Event) :
  exists l, calls (step w e) = calls w ++ l.
Proof.
  destruct e as [env index|d]; simpl.
  - destruct (post_values_outcome env index w) as [(r0 & Hv & Hp)|[(Hv & Hp)|(k & Hv)]].
    + rewrite Hp. exists []. now rewrite app_nil_r.
    + rewrite Hp. exists []. now rewrite app_nil_r.
    + destruct (post_values_accepted env index k w Hv)
        as (r & w' & Hp & _ & _ & _ & (l & Hl & _) & _).
      rewrite Hp. now exists l.
  - pose proof (on_message_effect (write d) (message d) w) as H. cbv zeta in H.
    destruct H as [_ [[_ Hc]|(k & _ & _ & Hc)]]; rewrite Hc.
    + exists []. now rewrite app_nil_r.
    + eexists. reflexivity.
Qed.

(** X7. No request and no delivery removes anything: every field of the
    hash and every row of the ledger is still there afterwards, and the
    published messages and the calls issued only get longer. *)
Theorem stores_only_grow (events : list Event) (w : World) :
  (forall field, is_Some (values w !! field) ->
                 is_Some (values (run events w) !! field)) /\
  (forall row, In row (ledger w) -> In row (ledger (run events w))) /\
  (exists published, channel (run events w) = channel w ++ published) /\
  (exists issued, calls (run events w) = calls w ++ issued).
Proof.
  split; [intros field; apply run_keeps_fields|].
  split; [apply run_ledger|].
  revert w. induction events as [|e rest IH]; intros w; simpl.
  - split; exists []; now rewrite app_nil_r.
  - destruct (IH (step w e)) as [[p Hp] [c Hc]].
    destruct (step_channel w e) as (p0 & Hp0 & _).
    destruct (step_calls w e) as (c0 & Hc0).
    split.
    + exists (p0 ++ p). now rewrite Hp, Hp0, app_assoc.
    + exists (c0 ++ c). now rewrite Hc, Hc0, app_assoc.
Qed.

(** X8. Every message the gateway publishes parses, in the worker, to an
    index of 0..40: the worker never discards a message that came from the
    gateway. *)
Theorem published_messages_are_computed (events : list Event) (w : World) :
  channel_invariant w -> channel_invariant (run events w).
Proof.
  unfold channel_invariant. revert w.
  induction events as [|e rest IH]; intros w Hw; simpl; [exact Hw|].
  apply IH. destruct (step_channel w e) as (l & -> & Hl).
  apply Forall_app. split; assumption.
Qed.

Lemma published_messages_are_computed_witness :
  channel_invariant empty_world /\
  channel_invariant
    (run [Submit all_ok (JsString "  7.0xyz"); Submit all_ok (JsString "41")] empty_world).
Proof.
  assert (channel_invariant empty_world) as H by constructor.
  split; [exact H|]. now apply published_messages_are_computed.
Defined.

Lemma step_ledger_range (w : World) (e : Event) :
  Forall (fun k => 0 <= k <= 40) (ledger w) ->
  Forall (fun k => 0 <= k <= 40) (ledger (step w e)).
Proof.
  intros Hw. destruct e as [env index|d]; simpl.
  - pose proof (post_values_effect env index w) as H. cbv zeta in H.
    set (w' := snd (post_values env index w)) in *.
    destruct H as [->|(k & Hk & _ & _ & [->| ->] & _)]; try exact Hw.
    unfold insert_on_conflict_do_nothing.
    destruct (existsb (Z.eqb k) (ledger w)); [exact Hw|].
    apply Forall_app. split; [exact Hw | constructor; [exact Hk | constructor]].
  - pose proof (on_message_effect (write d) (message d) w) as H. cbv zeta in H.
    destruct H as [-> _]. exact Hw.
Qed.

Lemma run_ledger_range (events : list Event) :
  forall w, Forall (fun k => 0 <= k <= 40) (ledger w) ->
            Forall (fun k => 0 <= k <= 40) (ledger (run events w)).
Proof.
  induction events as [|e rest IH]; intros w Hw; simpl; [exact Hw|].
  apply IH. now apply step_ledger_range.
Qed.

Lemma in_index_range (k : Z) : 0 <= k <= 40 -> In k index_range.
Proof.
  intros Hk. unfold index_range. apply in_map_iff.
  exists (Z.to_nat k). split; [lia | apply in_seq; lia].
Qed.

(** X9. Starting from a ledger of distinct indexes of 0..40, every
    sequence of requests and deliveries leaves such a ledger: it never
    holds more than 41 rows. *)
Theorem ledger_is_bounded (events : list Event) (w : World) :
  ledger_invariant w ->
  ledger_invariant (run events w) /\
  (List.length (ledger (run events w)) <= 41)%nat.
Proof.
  intros [Hnd Hr].
  assert (ledger_invariant (run events w)) as [Hnd' Hr'].
  { split; [now apply run_ledger | now apply run_ledger_range]. }
  split; [split; assumption|].
  change 41%nat with (List.length index_range).
  apply NoDup_incl_length; [exact Hnd'|].
  intros k Hk. apply in_index_range.
  exact (proj1 (List.Forall_forall _ _) Hr' k Hk).
Qed.

Lemma ledger_is_bounded_witness :
  ledger_invariant empty_world /\
  (List.length (ledger (run [Submit all_ok (JsString "7"); Submit all_ok (JsString "7")]
                         empty_world)) <= 41)%nat.
Proof.
  assert (ledger_invariant empty_world) as H by (split; constructor).
  split; [exact H|]. now apply ledger_is_bounded.
Defined.

End Growth.

Section ReadRoutes.

Lemma place_permutation (x : Z) (l : list Z) : Permutation (x :: l) (place x l).
Proof.
  induction l as [|y l IH]; simpl; [reflexivity|].
  destruct (x <=? y); [reflexivity|].
  etransitivity; [apply perm_swap|]. now apply perm_skip.
Qed.

Lemma order_by_number_permutation (rows : list Z) :
  Permutation rows (order_by_number rows).
Proof.
  induction rows as [|x rows IH]; simpl; [reflexivity|].
  etransitivity; [apply perm_skip, IH | apply place_permutation].
Qed.

Lemma place_sorted (x : Z) (l : list Z) :
  StronglySorted Z.le l -> StronglySorted Z.le (place x l).
Proof.
  induction l as [|y l IH]; intros Hs; simpl.
  - constructor; constructor.
  - inversion Hs as [|? ? Hl Hy]; subst.
    destruct (Z.leb_spec x y).
    + constructor; [exact Hs|]. constructor; [exact H|].
      eapply List.Forall_impl; [|exact Hy]. intros a Ha. simpl in Ha. lia.
    + constructor; [now apply IH|].
      apply (Permutation_Forall (place_permutation x l)).
      constructor; [lia | exact Hy].
Qed.

Lemma order_by_number_sorted (rows : list Z) :
  StronglySorted Z.le (order_by_number rows).
Proof.
  induction rows as [|x rows IH]; simpl; [constructor | now apply place_sorted].
Qed.

Lemma sorted_distinct_is_strict (l : list Z) :
  StronglySorted Z.le l -> List.NoDup l -> StronglySorted Z.lt l.
Proof.
  induction 1 as [|x l Hs IH Hx]; intros Hnd; [constructor|].
  inversion Hnd as [|? ? Hnin Hnd']; subst.
  constructor; [now apply IH|].
  apply List.Forall_forall. intros y Hy.
  pose proof (proj1 (List.Forall_forall _ _) Hx y Hy) as Hle.
  assert (x <> y) by (intros ->; contradiction). lia.
Qed.

(** X11. [GET /values/all] changes no store.  When the query succeeds it
    answers 200 with the rows of the ledger in ascending order of number,
    none lost and none added, strictly ascending when the numbers are
    distinct; when the query fails it answers 500 and logs the error. *)
Theorem values_all_is_sorted (ok : bool) (w : World) :
  exists r w',
    get_values_all ok w = (Normal r, w') /\
    values w' = values w /\ ledger w' = ledger w /\ channel w' = channel w /\
    if ok then
      w' = w /\ read_status r = 200 /\
      exists rows, read_body r = Rows rows /\
        StronglySorted Z.le rows /\ Permutation (ledger w) rows /\
        (List.NoDup (ledger w) -> StronglySorted Z.lt rows)
    else
      read_status r = 500 /\
      read_body r = ReadError "Failed to fetch values from database" /\
      server_console w' =
        server_console w ++ [(Error, "Database error fetching values: PgError")].
Proof.
  destruct ok; unfold get_values_all, try_catch, bind, query_select, ret, server_print;
    simpl; eexists; eexists; (split; [reflexivity|]); simpl; repeat split.
  exists (order_by_number (ledger w)). split; [reflexivity|].
  split; [apply order_by_number_sorted|].
  split; [apply order_by_number_permutation|].
  intros Hnd. apply sorted_distinct_is_strict; [apply order_by_number_sorted|].
  apply (Permutation_NoDup (order_by_number_permutation (ledger w)) Hnd).
Qed.

End ReadRoutes.

Section CacheBound.

Lemma index_range_numerals_NoDup : NoDup (toString <$> index_range).
Proof.
  apply NoDup_fmap_2; [intros a b; apply toString_inj|].
  unfold index_range. apply (NoDup_fmap_2 Z.of_nat), NoDup_ListNoDup, List.seq_NoDup.
Qed.

(** X10. Starting from a Result Cache that satisfies its invariant, every
    sequence of requests and deliveries leaves at most 41 fields in it. *)
Theorem cache_is_bounded (events : list Event) (w : World) :
  cache_invariant w ->
  (size (values (run events w)) <= 41)%nat.
Proof.
  intros Hw. destruct (run_invariant events w Hw) as [Hval _].
  set (m := values (run events w)) in *.
  rewrite <- size_dom.
  assert (dom m ⊆ (list_to_set (toString <$> index_range) : gset string)) as Hsub.
  { intros field Hf. apply elem_of_dom in Hf as [value Hf].
    destruct (Hval field value Hf) as (k & Hk & -> & _).
    apply elem_of_list_to_set, list_elem_of_fmap. exists k. split; [reflexivity|].
    apply list_elem_of_In. unfold index_range. apply in_map_iff.
    exists (Z.to_nat k). split; [lia | apply in_seq; lia]. }
  apply subseteq_size in Hsub.
  rewrite size_list_to_set in Hsub by apply index_range_numerals_NoDup.
  exact Hsub.
Qed.

Lemma cache_is_bounded_witness :
  cache_invariant empty_world /\
  (size (values (run [Submit all_ok (JsString "7");
                      Deliver {| message := "9"; write := Succeeds |}] empty_world)) <= 41)%nat.
Proof.
  split; [exact empty_world_invariant|].
  apply cache_is_bounded. exact empty_world_invariant.
Defined.

End CacheBound.

Section WorkerExtras.


(** One delivery keeps a stored result. *)
Lemma delivery_keeps_result (fate : Fate) (msg : string) (w : World) (k : Z) :
  values w !! toString k = Some (toString (fib k)) ->
  values (snd (on_message fate msg w)) !! toString k = Some (toString (fib k)).
Proof.
  intros Hk.
  pose proof (on_message_effect fate msg w) as H. cbv zeta in H.
  destruct H as [_ [[-> _]|(j & _ & [->| ->] & _)]]; try exact Hk.
  destruct (decide (j = k)) as [->|Hne].
  - apply lookup_insert_eq.
  - rewrite lookup_insert_ne; [exact Hk|]. intros E. apply Hne. now apply toString_inj.
Qed.

(** X14. Once the result of an index is stored, no sequence of deliveries
    changes it: the worker only ever writes [fib] of the index under the
    numeral of the index. *)
Theorem deliveries_keep_results (deliveries : list Delivery) (w : World) (k : Z) :
  values w !! toString k = Some (toString (fib k)) ->
  exists w',
    subscription deliveries w = (Normal tt, w') /\
    values w' !! toString k = Some (toString (fib k)).
Proof.
  revert w. induction deliveries as [|d rest IH]; intros w Hk; simpl.
  - exists w. split; [reflexivity | exact Hk].
  - unfold bind.
    destruct (on_message_completes (write d) (message d) w) as [w1 H1].
    pose proof (delivery_keeps_result (write d) (message d) w k Hk) as Hk1.
    rewrite H1 in *. cbn [snd] in Hk1. now apply IH.
Qed.

Lemma deliveries_keep_results_witness :
  exists w',
    subscription [ {| message := "7"; write := Succeeds |};
                   {| message := "8"; write := Fails true |} ]
      (snd (on_message Succeeds "7" empty_world)) = (Normal tt, w') /\
    values w' !! "7"%string = Some "21"%string.
Proof.
  apply (deliveries_keep_results
           [ {| message := "7"; write := Succeeds |};
             {| message := "8"; write := Fails true |} ]
           (snd (on_message Succeeds "7" empty_world)) 7).
  vm_compute. reflexivity.
Defined.

(** What one action can do to the hash and to the ledger. *)
Lemma act_effect (w : World) (a : Action) :
  (values (act w a) = values w \/
   (exists fate j, a = CallHSet fate j /\
      values (act w a) = <[toString j := placeholder]> (values w)) \/
   (exists j, values (act w a) = <[toString j := toString (fib j)]> (values w))) /\
  (ledger (act w a) = ledger w \/
   exists j, ledger (act w a) = insert_on_conflict_do_nothing j (ledger w)).
Proof.
  destruct a as [fate j|fate j|fate j|d]; cbn [act].
  - split; [|left; destruct fate as [|[]]; reflexivity].
    destruct fate as [|[]]; [right; left; exists Succeeds, j
                            | right; left; exists (Fails true), j | left];
      try (split; reflexivity); reflexivity.
  - split; left; destruct fate as [|[]]; reflexivity.
  - split; [left; destruct fate as [|[]]; reflexivity|].
    destruct fate as [|[]]; [right; exists j | right; exists j | left]; reflexivity.
  - pose proof (on_message_effect (write d) (message d) w) as H. cbv zeta in H.
    destruct H as [Hl Hv]. split; [|left; exact Hl].
    destruct Hv as [[Hv _]|(j & _ & [Hv|Hv] & _)]; [left; exact Hv | left; exact Hv|].
    right; right. exists j. exact Hv.
Qed.

Lemma interleave_app (before after : list Action) (w : World) :
  interleave (before ++ after) w = interleave after (interleave before w).
Proof. apply fold_left_app. Qed.

(** Under the numeral of [k] the hash only ever receives the placeholder
    or the numeral of [fib k]. *)
Lemma act_field (w : World) (a : Action) (k : Z) :
  values w !! toString k = Some placeholder \/
  values w !! toString k = Some (toString (fib k)) ->
  values (act w a) !! toString k = Some placeholder \/
  values (act w a) !! toString k = Some (toString (fib k)).
Proof.
  intros Hk. destruct (act_effect w a) as [[->|[(fate & j & _ & ->)|(j & ->)]] _];
    [exact Hk | |].
  - destruct (decide (j = k)) as [->|Hne].
    + left. apply lookup_insert_eq.
    + rewrite lookup_insert_ne; [exact Hk|]. intros E. apply Hne. now apply toString_inj.
  - destruct (decide (j = k)) as [->|Hne].
    + right. apply lookup_insert_eq.
    + rewrite lookup_insert_ne; [exact Hk|]. intros E. apply Hne. now apply toString_inj.
Qed.

Lemma interleave_field (actions : list Action) (k : Z) :
  forall w,
    values w !! toString k = Some placeholder \/
    values w !! toString k = Some (toString (fib k)) ->
    values (interleave actions w) !! toString k = Some placeholder \/
    values (interleave actions w) !! toString k = Some (toString (fib k)).
Proof.
  induction actions as [|a rest IH]; intros w Hk; [exact Hk|].
  apply IH. now apply act_field.
Qed.

(** A stored result stays unless the same index is submitted again. *)
Lemma act_keeps_result (w : World) (a : Action) (k : Z) :
  resubmits k a = false ->
  values w !! toString k = Some (toString (fib k)) ->
  values (act w a) !! toString k = Some (toString (fib k)).
Proof.
  intros Hr Hk. destruct (act_effect w a) as [[->|[(fate & j & -> & ->)|(j & ->)]] _];
    [exact Hk | |].
  - simpl in Hr. apply Z.eqb_neq in Hr.
    rewrite lookup_insert_ne; [exact Hk|]. intros E. apply Hr. now apply toString_inj.
  - destruct (decide (j = k)) as [->|Hne].
    + apply lookup_insert_eq.
    + rewrite lookup_insert_ne; [exact Hk|]. intros E. apply Hne. now apply toString_inj.
Qed.

Lemma interleave_keeps_result (actions : list Action) (k : Z) :
  forallb (fun a => negb (resubmits k a)) actions = true ->
  forall w,
    values w !! toString k = Some (toString (fib k)) ->
    values (interleave actions w) !! toString k = Some (toString (fib k)).
Proof.
  induction actions as [|a rest IH]; intros Hall w Hk; [exact Hk|].
  simpl in Hall. apply andb_prop in Hall as [Ha Hrest].
  apply (IH Hrest). apply act_keeps_result; [|exact Hk].
  now apply negb_true_iff.
Qed.

(** The ledger only grows, and a successful [INSERT] puts its index in. *)
Lemma act_ledger (w : World) (a : Action) (x : Z) :
  In x (ledger w) -> In x (ledger (act w a)).
Proof.
  intros Hx. destruct (act_effect w a) as [_ [->|(j & ->)]];
    [exact Hx | now apply insert_keeps].
Qed.

Lemma interleave_ledger (actions : list Action) (x : Z) :
  forall w, In x (ledger w) -> In x (ledger (interleave actions w)).
Proof.
  induction actions as [|a rest IH]; intros w Hx; [exact Hx|].
  apply IH. now apply act_ledger.
Qed.

Lemma insert_is_recorded (actions : list Action) (k : Z) :
  In (CallInsert Succeeds k) actions ->
  forall w, In k (ledger (interleave actions w)).
Proof.
  intros Hin w. apply in_split in Hin as (before & after & ->).
  rewrite interleave_app. cbn [interleave fold_left].
  apply (interleave_ledger after). cbn [act]. apply insert_In.
Qed.

(** The handler of an accepted request whose calls succeed does what its
    three calls do, one after the other. *)
Lemma post_values_is_its_calls (index : JsValue) (k : Z) (w : World) :
  validate index = Normal (inr k) ->
  post_values all_ok index w =
    (Normal {| status := 201; body := WorkingBody true k "Calculation started" |},
     interleave (request_calls k) w).
Proof.
  intros Hv. unfold post_values. rewrite Hv. reflexivity.
Qed.

(** X12. From submission to result, the store calls of the request
    interleaved with anything else.  The handler of an accepted request for
    [k] whose calls succeed issues [hSet], [publish] and [INSERT] in that
    order.  Let other requests' calls and runs of the worker come between
    them ([before] the publication, [between] it and the worker's handling
    of the message, [after] that), the request's [INSERT] coming anywhere
    after its [publish].  Then: right after the [hSet] the hash holds the
    placeholder under the numeral of [k]; from then on it holds there the
    placeholder or the numeral of [fib k], never anything else; the
    message published is the numeral of [k]; right after the worker has
    handled it, its [hSet] succeeding, the hash holds the numeral of
    [fib k]; it still does at the end, and [GET /values/current] shows it,
    unless [k] was submitted again in the meantime; and at the end the
    ledger holds [k], whether the row was inserted before or after the
    worker ran. *)
Theorem submission_is_computed
    (index : JsValue) (k : Z) (w : World) (before between after : list Action) :
  validate index = Normal (inr k) ->
  In (CallInsert Succeeds k) (between ++ after) ->
  let w1 := act w (CallHSet Succeeds k) in
  let w2 := act (interleave before w1) (CallPublish Succeeds k) in
  let w3 := act (interleave between w2)
                (Handle {| message := toString k; write := Succeeds |}) in
  let w4 := interleave after w3 in
  post_values all_ok index w =
    (Normal {| status := 201; body := WorkingBody true k "Calculation started" |},
     interleave (request_calls k) w) /\
  values w1 !! toString k = Some placeholder /\
  (forall others,
     values (interleave others w1) !! toString k = Some placeholder \/
     values (interleave others w1) !! toString k = Some (toString (fib k))) /\
  channel w2 = channel (interleave before w1) ++ [toString k] /\
  values w3 !! toString k = Some (toString (fib k)) /\
  (forallb (fun a => negb (resubmits k a)) after = true ->
   values w4 !! toString k = Some (toString (fib k)) /\
   get_values true w4 =
     (Normal {| read_status := 200; read_body := Values (values w4) |}, w4)) /\
  In k (ledger w4).
Proof.
  intros Hv Hin. cbv zeta.
  destruct (accepted_has_string index k Hv) as (s & _ & _ & _ & Hk & _).
  split; [now apply post_values_is_its_calls|].
  assert (values (act w (CallHSet Succeeds k)) !! toString k = Some placeholder) as H1.
  { cbn [act]. apply lookup_insert_eq. }
  split; [exact H1|].
  split; [intros others; apply interleave_field; now left|].
  split; [reflexivity|].
  set (w2 := act (interleave before (act w (CallHSet Succeeds k))) (CallPublish Succeeds k)).
  assert (values (act (interleave between w2)
                    (Handle {| message := toString k; write := Succeeds |}))
            !! toString k = Some (toString (fib k))) as H3.
  { cbn [act message write].
    destruct (on_message_outcome Succeeds (toString k) (interleave between w2))
      as (w3 & E3 & _ & _ & _ & Hcase).
    rewrite E3. cbn [snd]. rewrite parseInt10_toString in Hcase.
    destruct (Z.ltb_spec k 0); [lia|]. destruct (Z.gtb_spec k 40); [lia|].
    cbn [orb took_effect] in Hcase. destruct Hcase as (-> & _).
    apply lookup_insert_eq. }
  split; [exact H3|].
  split.
  { intros Hno. split; [|reflexivity]. now apply interleave_keeps_result. }
  apply in_app_or in Hin as [Hin|Hin].
  - apply interleave_ledger. apply act_ledger. now apply insert_is_recorded.
  - now apply insert_is_recorded.
Qed.

(** The worker handles the message of the request for 10 before the
    gateway has inserted the row, while a request for 11 is under way. *)
Lemma submission_is_computed_witness :
  let w1 := act empty_world (CallHSet Succeeds 10) in
  let w2 := act (interleave [CallHSet Succeeds 11] w1) (CallPublish Succeeds 10) in
  let w3 := act (interleave [] w2)
                (Handle {| message := toString 10; write := Succeeds |}) in
  let w4 := interleave [CallPublish Succeeds 11; CallInsert Succeeds 10] w3 in
  validate (JsString "10") = Normal (inr 10) /\
  toString (fib 10) = "89"%string /\
  values w4 !! toString 10 = Some (toString (fib 10)) /\
  In 10 (ledger w4).
Proof.
  intros w1 w2 w3 w4.
  assert (validate (JsString "10") = Normal (inr 10)) as Hv by (vm_compute; reflexivity).
  split; [exact Hv|]. split; [vm_compute; reflexivity|].
  destruct (submission_is_computed (JsString "10") 10 empty_world
              [CallHSet Succeeds 11] []
              [CallPublish Succeeds 11; CallInsert Succeeds 10] Hv
              ltac:(right; now left))
    as (_ & _ & _ & _ & _ & Hend & Hled).
  destruct (Hend eq_refl) as [Hres _].
  split; [exact Hres | exact Hled].
Defined.

(** X6. A request answered 201 issued exactly the three store calls, in
    order, and published exactly one message - also when the ledger already
    held the index, in which case the ledger is unchanged: the ledger
    removes duplicates, the channel does not. *)
Theorem created_issues_three_calls
    (env : Env) (index : JsValue) (w w1 : World) (r : Response) :
  post_values env index w = (Normal r, w1) -> status r = 201 ->
  exists k,
    r = {| status := 201; body := WorkingBody true k "Calculation started" |} /\
    calls w1 = calls w ++ [HSet (toString k) placeholder; Publish (toString k); Insert k] /\
    channel w1 = channel w ++ [toString k] /\
    (In k (ledger w) -> ledger w1 = ledger w) /\
    (~ In k (ledger w) -> ledger w1 = ledger w ++ [k]).
Proof.
  intros Hp H201.
  destruct (created_means_stored env index w w1 r Hp H201)
    as (k & Hk & Hv & -> & Hval & Hled).
  exists k. split; [reflexivity|].
  destruct (post_values_accepted env index k w Hv)
    as (r' & w' & Hp' & _ & _ & _ & _ & Hcase).
  rewrite Hp in Hp'. injection Hp' as <- <-.
  assert (stores_ok env = true) as Hok.
  { destruct (stores_ok env); [reflexivity|]. destruct Hcase as [E _]. discriminate E. }
  rewrite Hok in Hcase. destruct Hcase as (_ & _ & Hch & _ & Hcalls & _).
  split; [exact Hcalls|]. split; [exact Hch|]. split.
  - intros Hin. rewrite Hled. now apply insert_present.
  - intros Hnin. rewrite Hled. unfold insert_on_conflict_do_nothing.
    destruct (existsb (Z.eqb k) (ledger w)) eqn:E; [|reflexivity].
    apply existsb_eqb_In in E. contradiction.
Qed.

Lemma created_issues_three_calls_witness :
  exists w1,
    post_values all_ok (JsString "7")
      (snd (post_values all_ok (JsString "7") empty_world)) =
      (Normal {| status := 201; body := WorkingBody true 7 "Calculation started" |}, w1) /\
    ledger w1 = [7] /\ channel w1 = ["7"%string; "7"%string].
Proof.
  set (w0 := snd (post_values all_ok (JsString "7") empty_world)).
  destruct (created_issues_three_calls all_ok (JsString "7") w0
              (snd (post_values all_ok (JsString "7") w0))
              {| status := 201; body := WorkingBody true 7 "Calculation started" |}
              ltac:(vm_compute; reflexivity) eq_refl)
    as (k & Hr & _ & Hch & Hin & _).
  injection Hr as <-.
  exists (snd (post_values all_ok (JsString "7") w0)).
  split; [vm_compute; reflexivity|].
  split; [rewrite Hin; [reflexivity | now left] | exact Hch].
Defined.

End WorkerExtras.

Section Reconnection.

Lemma waits_after_give_up (n : nat) : (11 <= n)%nat -> waits n = waits 11.
Proof.
  induction 1 as [|n Hn IH]; [reflexivity|].
  cbn [waits]. unfold reconnectStrategy.
  destruct (Z.gtb_spec (Z.of_nat n) 10); [exact IH | lia].
Qed.

(** X15. The reconnection strategy asks to retry after 100 ms times the
    number of retries, at most 1000 ms - the cap of 3000 ms is never
    reached - and gives up from the 11th retry on; the waits it returns
    for the retries 0, 1, 2, ... add up to 5500 ms at most. *)
Theorem reconnection_gives_up_after_ten (retries : Z) :
  0 <= retries ->
  match reconnectStrategy retries with
  | RetryAfter ms => retries <= 10 /\ ms = 100 * retries /\ ms <= 1000
  | GiveUp _ => 10 < retries
  end /\
  total (waits (Z.to_nat retries)) <= 5500.
Proof.
  intros H. split.
  - unfold reconnectStrategy. destruct (Z.gtb_spec retries 10); [exact H0|]. lia.
  - destruct (Nat.le_gt_cases 11 (Z.to_nat retries)) as [Hge|Hlt].
    + rewrite waits_after_give_up by exact Hge. vm_compute. discriminate.
    + remember (Z.to_nat retries) as n eqn:En. clear En H.
      do 11 (destruct n as [|n]; [vm_compute; discriminate|]). lia.
Qed.

Lemma reconnection_gives_up_after_ten_witness :
  0 <= 10 /\ reconnectStrategy 10 = RetryAfter 1000 /\ total (waits 10) <= 5500.
Proof.
  split; [lia|]. split; [reflexivity|].
  apply (reconnection_gives_up_after_ten 10). lia.
Defined.

End Reconnection.

Section Origins.

Lemma split_nonempty (sep : ascii) (s : string) : split sep s <> [].
Proof.
  destruct s as [|c r]; simpl; [discriminate|].
  destruct (Ascii.eqb c sep); [discriminate|].
  destruct (split sep r); discriminate.
Qed.

Lemma join_cons (sep : ascii) (piece : string) (rest : list string) :
  rest <> [] -> join sep (piece :: rest) = piece +:+ String sep (join sep rest).
Proof. destruct rest; [contradiction | reflexivity]. Qed.

Lemma join_split (sep : ascii) (s : string) : join sep (split sep s) = s.
Proof.
  induction s as [|c r IH]; [reflexivity|]. simpl split.
  destruct (Ascii.eqb_spec c sep) as [->|Hne].
  - rewrite join_cons by apply split_nonempty. now rewrite IH.
  - pose proof (split_nonempty sep r) as Hn.
    destruct (split sep r) as [|piece pieces]; [contradiction|].
    destruct pieces as [|p ps].
    + simpl in *. now rewrite IH.
    + rewrite join_cons by discriminate. rewrite join_cons in IH by discriminate.
      change (String c (piece +:+ String sep (join sep (p :: ps))) = String c r).
      now rewrite IH.
Qed.

Lemma split_pieces_lack_separator (sep : ascii) (s : string) :
  Forall (fun piece => has_char sep piece = false) (split sep s).
Proof.
  induction s as [|c r IH]; simpl split.
  - constructor; [reflexivity | constructor].
  - destruct (Ascii.eqb_spec c sep) as [->|Hne].
    + constructor; [reflexivity | exact IH].
    + pose proof (split_nonempty sep r) as Hn.
      destruct (split sep r) as [|piece pieces]; [contradiction|].
      inversion IH as [|? ? Hp Hps]; subst. constructor; [|exact Hps].
      unfold has_char in *. simpl.
      destruct (Ascii.eqb_spec sep c) as [->|_]; [contradiction | exact Hp].
Qed.

Lemma existsb_eqb_string (o : string) (l : list string) :
  existsb (String.eqb o) l = true <-> In o l.
Proof.
  rewrite existsb_exists. split.
  - intros (x & Hx & He). apply String.eqb_eq in He. now subst.
  - intros H. exists o. split; [exact H | apply String.eqb_refl].
Qed.

(** X16. A request without an [Origin] header, or with an empty one, is
    allowed whatever the configuration; and when [ALLOWED_ORIGINS] is unset
    or empty, an origin is allowed exactly when it is one of the two
    localhost defaults, anything else being refused with
    ['Not allowed by CORS']. *)
Theorem cors_without_origin_or_configuration
    (ALLOWED_ORIGINS : option string) (o : string) :
  origin ALLOWED_ORIGINS None = Allowed /\
  origin ALLOWED_ORIGINS (Some ""%string) = Allowed /\
  (ALLOWED_ORIGINS = None \/ ALLOWED_ORIGINS = Some ""%string ->
   (origin ALLOWED_ORIGINS (Some o) = Allowed <->
    o = ""%string \/ o = "http://localhost:3000"%string \/
    o = "http://localhost:3050"%string) /\
   (origin ALLOWED_ORIGINS (Some o) <> Allowed ->
    origin ALLOWED_ORIGINS (Some o) = NotAllowed "Not allowed by CORS")).
Proof.
  split; [reflexivity|]. split; [reflexivity|].
  intros Hcfg.
  assert (allowedOrigins ALLOWED_ORIGINS = default_origins) as Hl
    by (destruct Hcfg as [-> | ->]; reflexivity).
  unfold origin. rewrite Hl.
  destruct (String.eqb_spec o "") as [->|Hne].
  { split; [split; auto | intros H; now contradiction H]. }
  destruct (existsb (String.eqb o) default_origins) eqn:E.
  - apply existsb_eqb_string in E. simpl in E. split; [|intros H; now contradiction H].
    split; [intros _ | reflexivity]. destruct E as [<-|[<-|[]]]; auto.
  - split; [|reflexivity]. split; [discriminate|].
    intros [->|H]; [contradiction|].
    assert (In o default_origins) as Hin by (simpl; destruct H as [-> | ->]; auto).
    apply existsb_eqb_string in Hin. congruence.
Qed.

Lemma cors_without_origin_or_configuration_witness :
  origin None (Some "http://localhost:3050"%string) = Allowed /\
  origin (Some ""%string) (Some "http://localhost:3051"%string) =
    NotAllowed "Not allowed by CORS".
Proof.
  split.
  - apply (cors_without_origin_or_configuration None "http://localhost:3050").
    + now left.
    + right. now right.
  - apply (cors_without_origin_or_configuration (Some ""%string) "http://localhost:3051").
    + now right.
    + discriminate.
Defined.

(** X17. A configured [ALLOWED_ORIGINS] is cut at its commas and nothing
    else: joining the entries with commas gives the variable back, an
    origin is allowed exactly when it equals an entry character for
    character (a space after a comma belongs to the entry), and an origin
    that contains a comma is refused under every configuration. *)
Theorem cors_entries_are_exact (ALLOWED_ORIGINS : option string) (o : string) :
  (forall s, ALLOWED_ORIGINS = Some s -> s <> ""%string ->
     join "," (allowedOrigins ALLOWED_ORIGINS) = s /\
     (o <> ""%string ->
      (origin ALLOWED_ORIGINS (Some o) = Allowed <-> In o (split "," s)))) /\
  (has_char "," o = true ->
   origin ALLOWED_ORIGINS (Some o) = NotAllowed "Not allowed by CORS").
Proof.
  split.
  - intros s -> Hs. unfold allowedOrigins.
    destruct (String.eqb_spec s ""); [contradiction|].
    split; [apply join_split|].
    intros Ho. unfold origin, allowedOrigins.
    destruct (String.eqb_spec o ""); [contradiction|].
    destruct (String.eqb_spec s ""); [contradiction|].
    destruct (existsb (String.eqb o) (split "," s)) eqn:E.
    + apply existsb_eqb_string in E. tauto.
    + split; [discriminate|]. intros Hin. apply existsb_eqb_string in Hin. congruence.
  - intros Hc. unfold origin.
    destruct (String.eqb_spec o "") as [->|_]; [discriminate Hc|].
    destruct (existsb (String.eqb o) (allowedOrigins ALLOWED_ORIGINS)) eqn:E; [|reflexivity].
    exfalso. apply existsb_eqb_string in E.
    assert (Forall (fun piece => has_char "," piece = false)
              (allowedOrigins ALLOWED_ORIGINS)) as Hall.
    { unfold allowedOrigins. destruct ALLOWED_ORIGINS as [s|].
      - destruct (String.eqb s ""); [repeat constructor | apply split_pieces_lack_separator].
      - repeat constructor. }
    pose proof (proj1 (List.Forall_forall _ _) Hall o E) as Hno. congruence.
Qed.

Lemma cors_entries_are_exact_witness :
  origin (Some "https://a.example, https://b.example"%string)
         (Some "https://b.example"%string) <> Allowed /\
  origin (Some "https://a.example, https://b.example"%string)
         (Some " https://b.example"%string) = Allowed.
Proof.
  destruct (cors_entries_are_exact (Some "https://a.example, https://b.example"%string)
              "https://b.example") as [H1 _].
  destruct (H1 _ eq_refl ltac:(discriminate)) as [_ Hb].
  destruct (cors_entries_are_exact (Some "https://a.example, https://b.example"%string)
              " https://b.example") as [H2 _].
  destruct (H2 _ eq_refl ltac:(discriminate)) as [_ Hsp].
  split.
  - intros Hal. apply (Hb ltac:(discriminate)) in Hal. simpl in Hal.
    destruct Hal as [E|[E|[]]]; discriminate E.
  - apply (Hsp ltac:(discriminate)). simpl. right. now left.
Defined.

End Origins.

Section Form.

Lemma trimStart_head (s : string) (c : ascii) (r : string) :
  trimStart s = String c r -> isStrWhiteSpaceChar c = false.
Proof.
  induction s as [|a s IH]; simpl; [discriminate|].
  destruct (isStrWhiteSpaceChar a) eqn:E; [exact IH|].
  intros [= <- <-]. exact E.
Qed.

Lemma trimStart_blank (s : string) : trimStart s = EmptyString <-> blank s = true.
Proof.
  unfold blank. induction s as [|a s IH]; simpl; [tauto|].
  destruct (isStrWhiteSpaceChar a); simpl; [exact IH|]. split; discriminate.
Qed.

Lemma trimEnd_head (c : ascii) (r : string) :
  isStrWhiteSpaceChar c = false -> trimEnd (String c r) <> EmptyString.
Proof.
  intros Hc. simpl. destruct (trimEnd r); [rewrite Hc|]; discriminate.
Qed.

Lemma trim_blank (s : string) : trim s = EmptyString <-> blank s = true.
Proof.
  unfold trim. split.
  - intros H. apply trimStart_blank.
    destruct (trimStart s) as [|c r] eqn:E; [reflexivity|].
    exfalso. exact (trimEnd_head c r (trimStart_head s c r E) H).
  - intros H. apply trimStart_blank in H. now rewrite H.
Qed.

(** X18. The form shows ['Please enter a number'], and sends nothing,
    exactly when the text is empty or holds only white space. *)
Theorem blank_input_is_not_sent (text : string) :
  handleSubmit text = ShowError "Please enter a number" <-> blank text = true.
Proof.
  unfold handleSubmit.
  destruct (String.eqb_spec text "") as [->|Hne]; [simpl; split; reflexivity|].
  destruct (String.eqb_spec (trim text) "") as [Ht|Ht]; simpl.
  - split; [intros _; now apply trim_blank | reflexivity].
  - split; [|intros H; apply trim_blank in H; contradiction].
    destruct (parseInt10 text) as [k|]; [|discriminate].
    destruct (k <? 0); [discriminate|]. destruct (k >? 40); discriminate.
Qed.

(** X19. Whatever the form posts passes the gateway's validation: the
    posted value is the base-10 parse of the text, it lies in 0..40, and
    [POST /values] answers it 201 when the store calls succeed and 500
    otherwise, so the only server error the form can show is
    ['Internal server error while processing request']. *)
Theorem form_submissions_pass_validation (text : string) (k : Z) :
  handleSubmit text = Post k ->
  parseInt10 text = Some k /\ 0 <= k <= 40 /\
  validate (posted k) = Normal (inr k) /\
  forall env w,
    exists r w',
      post_values env (posted k) w = (Normal r, w') /\
      ((stores_ok env = true /\ status r = 201 /\ shown_error r = None) \/
       (stores_ok env = false /\ status r = 500 /\
        shown_error r = Some "Internal server error while processing request"%string)).
Proof.
  unfold handleSubmit.
  destruct (String.eqb text "" || String.eqb (trim text) ""); [discriminate|].
  destruct (parseInt10 text) as [p|]; [|discriminate].
  destruct (Z.ltb_spec p 0); [discriminate|].
  destruct (Z.gtb_spec p 40); [discriminate|].
  intros [= ->].
  assert (0 <= k <= 40) as Hk by lia.
  destruct (index_in_range_is_accepted_lemma k Hk) as [Hv _].
  split; [reflexivity|]. split; [exact Hk|]. split; [exact Hv|].
  intros env w. unfold posted in *.
  destruct (post_values_accepted env _ k w Hv) as (r & w' & Hp & _ & _ & _ & _ & Hcase).
  exists r, w'. split; [exact Hp|].
  destruct (stores_ok env) eqn:Hok.
  - left. destruct Hcase as (-> & _). repeat split; reflexivity.
  - right. destruct Hcase as (H500 & _). split; [reflexivity|]. split; [exact H500|].
    destruct (failed_request_body env _ k w Hv Hok) as [w0 Hp0].
    rewrite Hp in Hp0. injection Hp0 as -> _. reflexivity.
Qed.

End Form.

Section FormWitnesses.

Lemma blank_input_is_not_sent_witness :
  handleSubmit (String (ascii_of_nat 9) "  ") = ShowError "Please enter a number".
Proof.
  apply (blank_input_is_not_sent (String (ascii_of_nat 9) "  ")). reflexivity.
Defined.

(** The form truncates ["3.5"] and posts 3, which the gateway accepts. *)
Lemma form_submissions_pass_validation_witness :
  handleSubmit "3.5" = Post 3 /\
  validate (posted 3) = Normal (inr 3) /\
  validate (JsString "3.5") = Normal (inl (rejection_response NonInteger)).
Proof.
  split; [reflexivity|]. split; [|vm_compute; reflexivity].
  apply (form_submissions_pass_validation "3.5" 3). reflexivity.
Defined.

End FormWitnesses.

Section FibExtras.

Lemma textbook_positive (n : nat) : 0 < textbook (S n).
Proof.
  induction n as [n IH] using (well_founded_induction Wf_nat.lt_wf).
  destruct n as [|[|n]]; [reflexivity | reflexivity|].
  change (0 < textbook (S (S n)) + textbook (S n)).
  pose proof (IH (S n) ltac:(lia)). pose proof (IH n ltac:(lia)). lia.
Qed.

(** X1. On 0..40 [fib] is the textbook Fibonacci sequence one place
    further, fib(i) = F(i+1); it satisfies fib(i+2) = fib(i+1) + fib(i);
    and it is strictly increasing from index 1 on. *)
Theorem fib_is_fibonacci_shifted (i : Z) :
  0 <= i <= 40 ->
  fib i = textbook (S (Z.to_nat i)) /\
  (i + 2 <= 40 -> fib (i + 2) = fib (i + 1) + fib i) /\
  (1 <= i < 40 -> fib i < fib (i + 1)).
Proof.
  intros Hi.
  assert (forall j, 0 <= j -> fib (j + 2) = fib (j + 1) + fib j) as Hrec.
  { intros j Hj. rewrite !fib_shifted_textbook by lia.
    replace (Z.to_nat (j + 2)) with (S (S (Z.to_nat j))) by lia.
    replace (Z.to_nat (j + 1)) with (S (Z.to_nat j)) by lia. reflexivity. }
  split; [apply fib_shifted_textbook; lia|]. split; [intros _; apply Hrec; lia|].
  intros Hi1. replace (i + 1) with ((i - 1) + 2) by lia. rewrite Hrec by lia.
  replace (i - 1 + 1) with i by lia.
  rewrite (fib_shifted_textbook (i - 1)) by lia.
  pose proof (textbook_positive (Z.to_nat (i - 1))). lia.
Qed.

Lemma fib_is_fibonacci_shifted_witness :
  0 <= 10 <= 40 /\ fib 10 = textbook 11 /\ fib 12 = fib 11 + fib 10.
Proof.
  destruct (fib_is_fibonacci_shifted 10 ltac:(lia)) as (H1 & H2 & _).
  split; [lia|]. split; [exact H1 | apply H2; lia].
Defined.

End FibExtras.

Section MoreExamples.

(** The rows inserted as 7, 3, 7 are read back as 3, 7. *)
Lemma values_all_is_sorted_witness :
  exists r w',
    get_values_all true
      (run [Submit all_ok (JsString "7"); Submit all_ok (JsString "3");
            Submit all_ok (JsString "7")] empty_world) = (Normal r, w') /\
    read_status r = 200 /\ read_body r = Rows [3; 7].
Proof.
  destruct (values_all_is_sorted true
              (run [Submit all_ok (JsString "7"); Submit all_ok (JsString "3");
                    Submit all_ok (JsString "7")] empty_world))
    as (r & w' & Hp & _ & _ & _ & _ & Hst & rows & Hb & _).
  exists r, w'. split; [exact Hp|]. split; [exact Hst|].
  injection Hp as <- _. reflexivity.
Defined.

Lemma stores_only_grow_witness :
  In 7 (ledger (run [Deliver {| message := "x"; write := Succeeds |};
                     Submit all_ok (JsString "8")]
                  (snd (post_values all_ok (JsString "7") empty_world)))).
Proof.
  apply (stores_only_grow
           [Deliver {| message := "x"; write := Succeeds |};
            Submit all_ok (JsString "8")]
           (snd (post_values all_ok (JsString "7") empty_world))).
  vm_compute. now left.
Defined.


Lemma index_numeral_round_trip_witness :
  Z.abs (-12) < 2 ^ 53 /\
  parseInt10 (toString (-12)) = Some (-12) /\ toString (-12) = "-12"%string.
Proof.
  assert (Z.abs (-12) < 2 ^ 53) as H by reflexivity.
  split; [exact H|].
  split; [apply (index_numeral_round_trip (-12) H) | reflexivity].
Defined.

End MoreExamples.
